(** * The model store of Handy-API (src/stores/modelStore.ts)

    A shallow embedding of the zustand store that mirrors the backend's
    model list, tracks which models are downloading or extracting, keeps
    the latest progress record per model and derives a smoothed download
    speed from the progress events.

    Conventions of the embedding.
    - A [Record<string, true>] used as a set is a [gset string]; a
      [Record<string, V>] is a [gmap string V].  These hold the own
      properties; a read [record[key]] or a test [key in record] also
      finds the members of [Object.prototype] (see [inherited]).
    - A JavaScript [number] is an exact rational ([Q]).  Time stamps are
      the milliseconds of [Date.now()], byte counts are what the backend
      reports.  Rounding of IEEE doubles is outside this model; every
      division of the source is by a constant or by a value already known
      to exceed 0.5, so no division by zero is hidden.
    - An [async] action is cut at its [await]s.  The reply of the backend
      is an argument of the part that runs after the [await]; each part
      runs to completion, as on the JavaScript event loop.
    - [console.error] writes no store state and is left out. *)

From Stdlib Require Import QArith Lqa.
From stdpp Require Import gmap strings list pretty.

(** ** Data model *)

(** Modelled from the spec: [ModelInfo] is declared in the generated
    [@/bindings] module, which is not part of the sources.  The store only
    reads [id] and [is_downloading]; [is_downloaded] is read by the model
    dropdown. *)
Record ModelInfo := {
  id : string;
  is_downloaded : bool;
  is_downloading : bool;
}.

Record DownloadProgress := {
  model_id : string;
  downloaded : Q;
  total : Q;
  percentage : Q;
}.

Record DownloadStats := {
  startTime : Q;
  lastUpdate : Q;
  totalDownloaded : Q;
  speed : Q; (* MB/s *)
}.

Record ModelsStore := {
  models : list ModelInfo;
  currentModel : string;
  downloadingModels : gset string;
  extractingModels : gset string;
  downloadProgress : gmap string DownloadProgress;
  downloadStats : gmap string DownloadStats;
  loading : bool;
  error : option string;
  hasAnyModels : bool;
  isFirstRun : bool;
  initialized : bool;
}.

(** The state the store is created with. *)
Definition initialStore : ModelsStore := {|
  models := [];
  currentModel := "";
  downloadingModels := ∅;
  extractingModels := ∅;
  downloadProgress := ∅;
  downloadStats := ∅;
  loading := true;
  error := None;
  hasAnyModels := false;
  isFirstRun := false;
  initialized := false;
|}.

(** ** Partial updates: [set({ field: value })] *)

Definition set_models (v : list ModelInfo) (s : ModelsStore) : ModelsStore :=
  {| models := v; currentModel := currentModel s;
     downloadingModels := downloadingModels s; extractingModels := extractingModels s;
     downloadProgress := downloadProgress s; downloadStats := downloadStats s;
     loading := loading s; error := error s; hasAnyModels := hasAnyModels s;
     isFirstRun := isFirstRun s; initialized := initialized s |}.

Definition set_currentModel (v : string) (s : ModelsStore) : ModelsStore :=
  {| models := models s; currentModel := v;
     downloadingModels := downloadingModels s; extractingModels := extractingModels s;
     downloadProgress := downloadProgress s; downloadStats := downloadStats s;
     loading := loading s; error := error s; hasAnyModels := hasAnyModels s;
     isFirstRun := isFirstRun s; initialized := initialized s |}.

Definition set_downloadingModels (v : gset string) (s : ModelsStore) : ModelsStore :=
  {| models := models s; currentModel := currentModel s;
     downloadingModels := v; extractingModels := extractingModels s;
     downloadProgress := downloadProgress s; downloadStats := downloadStats s;
     loading := loading s; error := error s; hasAnyModels := hasAnyModels s;
     isFirstRun := isFirstRun s; initialized := initialized s |}.

Definition set_extractingModels (v : gset string) (s : ModelsStore) : ModelsStore :=
  {| models := models s; currentModel := currentModel s;
     downloadingModels := downloadingModels s; extractingModels := v;
     downloadProgress := downloadProgress s; downloadStats := downloadStats s;
     loading := loading s; error := error s; hasAnyModels := hasAnyModels s;
     isFirstRun := isFirstRun s; initialized := initialized s |}.

Definition set_downloadProgress (v : gmap string DownloadProgress) (s : ModelsStore)
  : ModelsStore :=
  {| models := models s; currentModel := currentModel s;
     downloadingModels := downloadingModels s; extractingModels := extractingModels s;
     downloadProgress := v; downloadStats := downloadStats s;
     loading := loading s; error := error s; hasAnyModels := hasAnyModels s;
     isFirstRun := isFirstRun s; initialized := initialized s |}.

Definition set_downloadStats (v : gmap string DownloadStats) (s : ModelsStore)
  : ModelsStore :=
  {| models := models s; currentModel := currentModel s;
     downloadingModels := downloadingModels s; extractingModels := extractingModels s;
     downloadProgress := downloadProgress s; downloadStats := v;
     loading := loading s; error := error s; hasAnyModels := hasAnyModels s;
     isFirstRun := isFirstRun s; initialized := initialized s |}.

Definition set_loading (v : bool) (s : ModelsStore) : ModelsStore :=
  {| models := models s; currentModel := currentModel s;
     downloadingModels := downloadingModels s; extractingModels := extractingModels s;
     downloadProgress := downloadProgress s; downloadStats := downloadStats s;
     loading := v; error := error s; hasAnyModels := hasAnyModels s;
     isFirstRun := isFirstRun s; initialized := initialized s |}.

Definition set_error (v : option string) (s : ModelsStore) : ModelsStore :=
  {| models := models s; currentModel := currentModel s;
     downloadingModels := downloadingModels s; extractingModels := extractingModels s;
     downloadProgress := downloadProgress s; downloadStats := downloadStats s;
     loading := loading s; error := v; hasAnyModels := hasAnyModels s;
     isFirstRun := isFirstRun s; initialized := initialized s |}.

Definition set_hasAnyModels (v : bool) (s : ModelsStore) : ModelsStore :=
  {| models := models s; currentModel := currentModel s;
     downloadingModels := downloadingModels s; extractingModels := extractingModels s;
     downloadProgress := downloadProgress s; downloadStats := downloadStats s;
     loading := loading s; error := error s; hasAnyModels := v;
     isFirstRun := isFirstRun s; initialized := initialized s |}.

Definition set_isFirstRun (v : bool) (s : ModelsStore) : ModelsStore :=
  {| models := models s; currentModel := currentModel s;
     downloadingModels := downloadingModels s; extractingModels := extractingModels s;
     downloadProgress := downloadProgress s; downloadStats := downloadStats s;
     loading := loading s; error := error s; hasAnyModels := hasAnyModels s;
     isFirstRun := v; initialized := initialized s |}.

Definition set_initialized (v : bool) (s : ModelsStore) : ModelsStore :=
  {| models := models s; currentModel := currentModel s;
     downloadingModels := downloadingModels s; extractingModels := extractingModels s;
     downloadProgress := downloadProgress s; downloadStats := downloadStats s;
     loading := loading s; error := error s; hasAnyModels := hasAnyModels s;
     isFirstRun := isFirstRun s; initialized := v |}.

(** ** Replies of the command gateway

    A command resolves to a tagged result ([status] is "ok" or "error"),
    or the call throws.  [thrown e] carries the text the template literal
    interpolates for the caught value. *)

Inductive Result (T : Type) : Type :=
| ok (data : T)
| err (error : string).
Arguments ok {T} data.
Arguments err {T} error.

Inductive Reply (T : Type) : Type :=
| resolved (result : Result T)
| thrown (e : string).
Arguments resolved {T} result.
Arguments thrown {T} e.

(** ** Plain objects as records

    The records of the store and the local record of [loadModels] are
    plain objects.  Reading [record[key]] and testing [key in record]
    go through the prototype chain, so they also find the members of
    [Object.prototype].  These are listed as the language defines them;
    read on a plain object each is truthy (a function, and for
    [__proto__] the prototype itself).  Assigning [true] to
    [record["__proto__"]] stores no key: the setter ignores a value that
    is not an object ([assignTrue]).  An object assigned to
    [record["__proto__"]] is what a read of that key returns afterwards;
    [downloadProgress] keeps it as the entry of that key. *)
Definition objectPrototypeMembers : list string :=
  ["constructor"; "hasOwnProperty"; "isPrototypeOf"; "propertyIsEnumerable";
   "toLocaleString"; "toString"; "valueOf"; "__proto__";
   "__defineGetter__"; "__defineSetter__"; "__lookupGetter__";
   "__lookupSetter__"].

(** Whether a plain object without an own property [key] still answers
    for it. *)
Definition inherited (key : string) : bool :=
  bool_decide (key ∈ objectPrototypeMembers).

(** Whether [record[key]] is truthy, and as well [key in record]: an own
    entry (every value the store writes is truthy) or an inherited
    member. *)
Definition truthyAt (record : gset string) (key : string) : bool :=
  bool_decide (key ∈ record) || inherited key.

Definition truthyEntry {V} (record : gmap string V) (key : string) : bool :=
  bool_decide (is_Some (record !! key)) || inherited key.

(** What [record[key]] evaluates to. *)
Inductive Lookup (V : Type) : Type :=
| Own (v : V)
| Inherited
| Undefined.
Arguments Own {V} v.
Arguments Inherited {V}.
Arguments Undefined {V}.

Definition readEntry {V} (record : gmap string V) (key : string) : Lookup V :=
  match record !! key with
  | Some v => Own v
  | None => if inherited key then Inherited else Undefined
  end.

(** [record[key] = true] *)
Definition assignTrue (key : string) (record : gset string) : gset string :=
  if bool_decide (key = "__proto__") then record else {[ key ]} ∪ record.

(** ** loadModels *)

(** The ids the snapshot marks as downloading: the local record
    [backendDownloading] filled by [filter] and [forEach];
    [backendDownloading[m.id] = true] stores nothing for [__proto__]. *)
Definition backendDownloading (data : list ModelInfo) : gset string :=
  foldl (λ acc m, assignTrue m.(id) acc) ∅
        (filter (λ m : ModelInfo, is_downloading m) data).

(** The producer that syncs the downloading state with the backend.
    Both loops run over [Object.keys] of a record; they visit the keys
    in the order of [elements], and the outcome does not depend on it
    (see [elem_of_syncDownloading]). *)
Definition syncDownloading (data : list ModelInfo) (s : ModelsStore) : ModelsStore :=
  let backend := backendDownloading data in
  (* Merge: keep frontend state if downloading, add backend state *)
  let merged :=
    foldl (λ dm k, assignTrue k dm) (downloadingModels s) (elements backend) in
  (* Remove models that backend says are NOT downloading AND frontend
     doesn't have progress for *)
  let kept :=
    foldl (λ dm k,
             if negb (truthyAt backend k) && negb (truthyEntry (downloadProgress s) k)
             then dm ∖ {[ k ]} else dm)
          merged (elements merged) in
  set_downloadingModels kept s.

(** The continuation of [loadModels] after the [await]: the [try] body,
    the [catch] and the [finally] run in one go. *)
Definition loadModels (r : Reply (list ModelInfo)) (s : ModelsStore) : ModelsStore :=
  let s1 :=
    match r with
    | resolved (ok data) => syncDownloading data (set_error None (set_models data s))
    | resolved (err e) => set_error (Some ("Failed to load models: " +:+ e)) s
    | thrown e => set_error (Some ("Failed to load models: " +:+ e)) s
    end in
  set_loading false s1.

(** ** loadCurrentModel, checkFirstRun, selectModel *)

Definition loadCurrentModel (r : Reply string) (s : ModelsStore) : ModelsStore :=
  match r with
  | resolved (ok data) => set_currentModel data s
  | resolved (err _) => s
  | thrown _ => s (* console.error only *)
  end.

Definition checkFirstRun (r : Reply bool) (s : ModelsStore) : ModelsStore * bool :=
  match r with
  | resolved (ok hasModels) =>
      (set_isFirstRun (negb hasModels) (set_hasAnyModels hasModels s), negb hasModels)
  | resolved (err _) => (s, false)
  | thrown _ => (s, false) (* console.error only *)
  end.

(** Every user action starts with [set({ error: null })], before the
    command is sent. *)
Definition clearError (s : ModelsStore) : ModelsStore := set_error None s.

Definition selectModel_reply (modelId : string) (r : Reply unit) (s : ModelsStore)
  : ModelsStore * bool :=
  match r with
  | resolved (ok _) =>
      (set_hasAnyModels true (set_isFirstRun false (set_currentModel modelId s)), true)
  | resolved (err e) => (set_error (Some ("Failed to switch to model: " +:+ e)) s, false)
  | thrown e => (set_error (Some ("Failed to switch to model: " +:+ e)) s, false)
  end.

Definition selectModel (modelId : string) (r : Reply unit) (s : ModelsStore)
  : ModelsStore * bool :=
  selectModel_reply modelId r (clearError s).

(** ** downloadModel *)

(** The record a local download start writes into [downloadProgress]. *)
Definition zeroProgress (modelId : string) : DownloadProgress :=
  {| model_id := modelId; downloaded := 0; total := 0; percentage := 0 |}.

(** Before the [await]: clear the error, then the optimistic producer. *)
Definition downloadModel_start (modelId : string) (s : ModelsStore) : ModelsStore :=
  let s1 := clearError s in
  let s2 := set_downloadingModels (assignTrue modelId (downloadingModels s1)) s1 in
  set_downloadProgress (<[ modelId := zeroProgress modelId ]> (downloadProgress s2)) s2.

(** [produce((state) => { delete state.downloadingModels[modelId]; })] *)
Definition deleteDownloading (modelId : string) (s : ModelsStore) : ModelsStore :=
  set_downloadingModels (downloadingModels s ∖ {[ modelId ]}) s.

(** After the [await]. *)
Definition downloadModel_reply (modelId : string) (r : Reply unit) (s : ModelsStore)
  : ModelsStore * bool :=
  match r with
  | resolved (ok _) => (s, true)
  | resolved (err e) =>
      (deleteDownloading modelId
         (set_error (Some ("Failed to download model: " +:+ e)) s), false)
  | thrown e =>
      (deleteDownloading modelId
         (set_error (Some ("Failed to download model: " +:+ e)) s), false)
  end.

Definition downloadModel (modelId : string) (r : Reply unit) (s : ModelsStore)
  : ModelsStore * bool :=
  downloadModel_reply modelId r (downloadModel_start modelId s).

(** ** cancelDownload, deleteModel *)

(** The producer shared by a confirmed cancel and by the
    [model-download-complete] and [model-download-cancelled] listeners:
    three [delete]s. *)
Definition forgetDownload (modelId : string) (s : ModelsStore) : ModelsStore :=
  let s1 := set_downloadingModels (downloadingModels s ∖ {[ modelId ]}) s in
  let s2 := set_downloadProgress (delete modelId (downloadProgress s1)) s1 in
  set_downloadStats (delete modelId (downloadStats s2)) s2.

(** After the first [await] of [cancelDownload]; on success the action
    goes on to [await get().loadModels()]. *)
Definition cancelDownload_reply (modelId : string) (r : Reply unit) (s : ModelsStore)
  : ModelsStore :=
  match r with
  | resolved (ok _) => forgetDownload modelId s
  | resolved (err e) => set_error (Some ("Failed to cancel download: " +:+ e)) s
  | thrown e => set_error (Some ("Failed to cancel download: " +:+ e)) s
  end.

(** Whether a reply is [status === "ok"]. *)
Definition succeeded {T} (r : Reply T) : bool :=
  match r with resolved (ok _) => true | _ => false end.

(** A whole run of [cancelDownload]; [rl] is the reply to the reload,
    only asked for when the cancel was accepted. *)
Definition cancelDownload (modelId : string) (r : Reply unit)
    (rl : Reply (list ModelInfo)) (s : ModelsStore) : ModelsStore * bool :=
  let s1 := cancelDownload_reply modelId r (clearError s) in
  if succeeded r then (loadModels rl s1, true) else (s1, false).

Definition deleteModel_reply (r : Reply unit) (s : ModelsStore) : ModelsStore :=
  match r with
  | resolved (ok _) => s
  | resolved (err e) => set_error (Some ("Failed to delete model: " +:+ e)) s
  | thrown e => set_error (Some ("Failed to delete model: " +:+ e)) s
  end.

Definition deleteModel (modelId : string) (r : Reply unit)
    (rl : Reply (list ModelInfo)) (rc : Reply string) (s : ModelsStore)
  : ModelsStore * bool :=
  let s1 := deleteModel_reply r (clearError s) in
  if succeeded r then (loadCurrentModel rc (loadModels rl s1), true) else (s1, false).

(** ** Queries *)

Definition getModelInfo (modelId : string) (s : ModelsStore) : option ModelInfo :=
  find (λ model, bool_decide (id model = modelId)) (models s).

(** [modelId in get().downloadingModels] *)
Definition isModelDownloading (modelId : string) (s : ModelsStore) : bool :=
  truthyAt (downloadingModels s) modelId.

(** [modelId in get().extractingModels] *)
Definition isModelExtracting (modelId : string) (s : ModelsStore) : bool :=
  truthyAt (extractingModels s) modelId.

(** [get().downloadProgress[modelId]] *)
Definition getDownloadProgress (modelId : string) (s : ModelsStore)
  : Lookup DownloadProgress :=
  readEntry (downloadProgress s) modelId.

(** ** The speed estimator of the [model-download-progress] listener *)

Module Math.
(** [Math.max(a, b)] on two numbers. *)
Definition max (a b : Q) : Q := if Qlt_le_dec a b then b else a.
End Math.

(** [a > b] on numbers, as a truth value. *)
Definition gt (a b : Q) : bool := if Qlt_le_dec b a then true else false.

Section Estimator.
Local Open Scope Q_scope.

(** The sample: the event's payload and [now = Date.now()];
    [current] is the stored [downloadStats] entry. *)
Variables (now : Q) (progress : DownloadProgress) (current : DownloadStats).

Definition timeDiff : Q := (now - lastUpdate current) / 1000.
Definition bytesDiff : Q := downloaded progress - totalDownloaded current.
Definition currentSpeed : Q := bytesDiff / (1024 * 1024) / timeDiff.
Definition validCurrentSpeed : Q := Math.max 0 currentSpeed.
Definition smoothedSpeed : Q :=
  if gt (speed current) 0
  then speed current * 0.8 + validCurrentSpeed * 0.2
  else validCurrentSpeed.

(** The entry written when [timeDiff > 0.5]. *)
Definition acceptedStats : DownloadStats :=
  {| startTime := startTime current;
     lastUpdate := now;
     totalDownloaded := downloaded progress;
     speed := Math.max 0 smoothedSpeed |}.
End Estimator.

(** The entry written for the first sample of a model. *)
Definition firstStats (now : Q) (progress : DownloadProgress) : DownloadStats :=
  {| startTime := now; lastUpdate := now;
     totalDownloaded := downloaded progress; speed := 0 |}.

(** The second producer of the listener: update download stats for the
    speed calculation.  When the id has no entry but names a member of
    [Object.prototype], [current] is that member: it is truthy, its
    [lastUpdate] is undefined, the time difference is not a number and
    the test [timeDiff > 0.5] fails, so nothing is written. *)
Definition updateStats (now : Q) (progress : DownloadProgress)
    (stats : gmap string DownloadStats) : gmap string DownloadStats :=
  match stats !! model_id progress with
  | None =>
      if inherited (model_id progress) then stats
      else <[ model_id progress := firstStats now progress ]> stats
  | Some current =>
      if gt (timeDiff now current) 0.5
      then <[ model_id progress := acceptedStats now progress current ]> stats
      else stats
  end.

(** ** Event listeners

    A listener changes the store at once and may start refreshes without
    waiting for them ([get().loadModels()] with no [await]); those are
    returned as the tasks it leaves behind. *)

Inductive Event : Type :=
| ModelDownloadProgress (payload : DownloadProgress)
| ModelDownloadComplete (payload : string)
| ModelExtractionStarted (payload : string)
| ModelExtractionCompleted (payload : string)
| ModelExtractionFailed (payload_model_id payload_error : string)
| ModelDownloadCancelled (payload : string)
| ModelDeleted
| ModelStateChanged.

Inductive Task : Type :=
| LoadModels
| LoadCurrentModel.

Definition onDownloadProgress (now : Q) (progress : DownloadProgress) (s : ModelsStore)
  : ModelsStore :=
  let s1 :=
    set_downloadProgress (<[ model_id progress := progress ]> (downloadProgress s)) s in
  set_downloadStats (updateStats now progress (downloadStats s1)) s1.

Definition onExtractionFailed (modelId e : string) (s : ModelsStore) : ModelsStore :=
  let s1 := set_extractingModels (extractingModels s ∖ {[ modelId ]}) s in
  set_error (Some ("Failed to extract model: " +:+ e)) s1.

(** [listen(name, handler)]: the handler of each event, [now] being the
    clock when it runs. *)
Definition onEvent (now : Q) (e : Event) (s : ModelsStore) : ModelsStore * list Task :=
  match e with
  | ModelDownloadProgress progress => (onDownloadProgress now progress s, [])
  | ModelDownloadComplete modelId => (forgetDownload modelId s, [LoadModels])
  | ModelExtractionStarted modelId =>
      (set_extractingModels (assignTrue modelId (extractingModels s)) s, [])
  | ModelExtractionCompleted modelId =>
      (set_extractingModels (extractingModels s ∖ {[ modelId ]}) s, [LoadModels])
  | ModelExtractionFailed modelId e => (onExtractionFailed modelId e s, [])
  | ModelDownloadCancelled modelId => (forgetDownload modelId s, [])
  | ModelDeleted => (s, [LoadModels; LoadCurrentModel])
  | ModelStateChanged => (s, [LoadModels; LoadCurrentModel])
  end.

(** What a started refresh does once the backend answers; a refresh
    started by a listener is the same [loadModels] the actions call. *)
Inductive TaskReply : Type :=
| LoadModelsReply (r : Reply (list ModelInfo))
| LoadCurrentModelReply (r : Reply string).

Definition taskOf (tr : TaskReply) : Task :=
  match tr with
  | LoadModelsReply _ => LoadModels
  | LoadCurrentModelReply _ => LoadCurrentModel
  end.

Definition runTask (tr : TaskReply) (s : ModelsStore) : ModelsStore :=
  match tr with
  | LoadModelsReply r => loadModels r s
  | LoadCurrentModelReply r => loadCurrentModel r s
  end.

(** ** Reachable states

    Between two [await]s nothing else runs, so the store only ever moves
    by one of the following parts: the start of an action, the
    continuation of an action once its command is answered, a listener,
    or one of the public setters.  [initialize] is made of such parts:
    the three loads it awaits together, and [set({ initialized: true })]
    once the listeners are registered.  Any part may follow any other
    here, which covers every interleaving the event loop can produce. *)

Inductive Segment : Type :=
| SegEvent (now : Q) (e : Event)
| SegTask (tr : TaskReply)
| SegCheckFirstRun (r : Reply bool)
| SegClearError
| SegSelectReply (modelId : string) (r : Reply unit)
| SegDownloadStart (modelId : string)
| SegDownloadReply (modelId : string) (r : Reply unit)
| SegCancelReply (modelId : string) (r : Reply unit)
| SegDeleteReply (r : Reply unit)
| SegSetModels (v : list ModelInfo)
| SegSetCurrentModel (v : string)
| SegSetError (v : option string)
| SegSetLoading (v : bool)
| SegInitialized.

Definition runSegment (g : Segment) (s : ModelsStore) : ModelsStore :=
  match g with
  | SegEvent now e => fst (onEvent now e s)
  | SegTask tr => runTask tr s
  | SegCheckFirstRun r => fst (checkFirstRun r s)
  | SegClearError => clearError s
  | SegSelectReply modelId r => fst (selectModel_reply modelId r s)
  | SegDownloadStart modelId => downloadModel_start modelId s
  | SegDownloadReply modelId r => fst (downloadModel_reply modelId r s)
  | SegCancelReply modelId r => cancelDownload_reply modelId r s
  | SegDeleteReply r => deleteModel_reply r s
  | SegSetModels v => set_models v s
  | SegSetCurrentModel v => set_currentModel v s
  | SegSetError v => set_error v s
  | SegSetLoading v => set_loading v s
  | SegInitialized => set_initialized true s
  end.

Inductive reachable : ModelsStore → Prop :=
| reachable_initial : reachable initialStore
| reachable_segment g s : reachable s → reachable (runSegment g s).

(** ** Predicates and sample data of the statements *)

(** A snapshot marks [k] as downloading when one of its entries has that
    id and [is_downloading] set. *)
Definition marksDownloading (data : list ModelInfo) (k : string) : Prop :=
  ∃ m, m ∈ data ∧ id m = k ∧ is_downloading m = true.

(** Everything of the store but the error field. *)
Definition sameButError (s s' : ModelsStore) : Prop :=
  models s' = models s ∧ currentModel s' = currentModel s
  ∧ downloadingModels s' = downloadingModels s
  ∧ extractingModels s' = extractingModels s
  ∧ downloadProgress s' = downloadProgress s
  ∧ downloadStats s' = downloadStats s
  ∧ loading s' = loading s ∧ hasAnyModels s' = hasAnyModels s
  ∧ isFirstRun s' = isFirstRun s ∧ initialized s' = initialized s.

(** The message a failed reply carries, by either way of failing. *)
Definition failure {T} (r : Reply T) : option string :=
  match r with
  | resolved (ok _) => None
  | resolved (err e) => Some e
  | thrown e => Some e
  end.

(** Every id with stats has a progress entry. *)
Definition statsHaveProgress (s : ModelsStore) : Prop :=
  ∀ k, is_Some (downloadStats s !! k) → is_Some (downloadProgress s !! k).

(** A progress entry without a stats entry is the zeroed record of a
    local start, or is filed under a name of [Object.prototype]. *)
Definition progressAloneIsFresh (s : ModelsStore) : Prop :=
  ∀ k p, downloadProgress s !! k = Some p → downloadStats s !! k = None →
         p = zeroProgress k ∨ inherited k = true.

(** No stored speed is negative. *)
Definition speedsNonneg (s : ModelsStore) : Prop :=
  ∀ k st, downloadStats s !! k = Some st → (0 <= speed st)%Q.

(** The instantaneous rate as the specification words it: the byte delta
    over the elapsed time, clamped at zero. *)
Definition specInstantaneousRate (elapsed : Q) (p : DownloadProgress)
    (current : DownloadStats) : Q :=
  Math.max 0 ((downloaded p - totalDownloaded current) / elapsed).

(** Two samples of one download, one second apart on the clock. *)
Definition sample1 : DownloadProgress :=
  {| model_id := "m1"; downloaded := 1000000; total := 4000000; percentage := 25 |}.
Definition sample2 : DownloadProgress :=
  {| model_id := "m1"; downloaded := 2000000; total := 4000000; percentage := 50 |}.

(** The store after the first of them arrived at clock 1000. *)
Definition afterSample1 : ModelsStore :=
  fst (onEvent 1000 (ModelDownloadProgress sample1) initialStore).

(** A sample whose byte count fell back, one second after the first. *)
Definition sampleRestarted : DownloadProgress :=
  {| model_id := "m1"; downloaded := 400000; total := 4000000; percentage := 10 |}.

(** ** Runs of listeners, and initialize *)

(** Events handled one after the other, each at its own clock; the
    refreshes they start are not run here. *)
Definition deliverAll (events : list (Q * Event)) (s : ModelsStore) : ModelsStore :=
  foldl (λ s ev, fst (onEvent ev.1 ev.2 s)) s events.

(** The store together with how many times [initialize] has registered
    its eight listeners. *)
Record App := {
  store : ModelsStore;
  listenerSets : nat;
}.

(** The three loads [initialize] awaits together, their continuations
    taken in the order of the array given to [Promise.all]. *)
Definition initialLoads (rl : Reply (list ModelInfo)) (rc : Reply string)
    (rf : Reply bool) (s : ModelsStore) : ModelsStore :=
  fst (checkFirstRun rf (loadCurrentModel rc (loadModels rl s))).

(** What [initialize] does after the loads: the [listen] calls and
    [set({ initialized: true })]. *)
Definition registerListeners (a : App) : App :=
  {| store := set_initialized true (store a);
     listenerSets := S (listenerSets a) |}.

(** A run of [initialize] that no other call of it overlaps. *)
Definition initialize (rl : Reply (list ModelInfo)) (rc : Reply string)
    (rf : Reply bool) (a : App) : App :=
  if initialized (store a) then a
  else registerListeners
         {| store := initialLoads rl rc rf (store a);
            listenerSets := listenerSets a |}.

(** The three listeners that write [extractingModels]. *)
Definition isExtractionEvent (e : Event) : bool :=
  match e with
  | ModelExtractionStarted _ | ModelExtractionCompleted _
  | ModelExtractionFailed _ _ => true
  | _ => false
  end.

(** The start time of a stats entry is never after its last update. *)
Definition clocksOrdered (s : ModelsStore) : Prop :=
  ∀ k st, downloadStats s !! k = Some st → (startTime st <= lastUpdate st)%Q.

(** Every progress entry is filed under the [model_id] it carries. *)
Definition progressKeyed (s : ModelsStore) : Prop :=
  ∀ k p, downloadProgress s !! k = Some p → model_id p = k.

(** * The translation check (scripts/check-translations.ts)

    The script compares the key paths of every language file with those
    of the reference language.  Conventions of the embedding.
    - A parsed JSON value is a [Json].  An object is the list of its own
      properties in the order [for ... in] visits them, every key once
      (see [uniqueKeys]).
    - [current[key]] goes through the prototype chain: after the own
      properties (the fields of an object, the indices and [length] of
      an array) it finds the members of [Array.prototype] and
      [Object.prototype], see [getProperty].
    - [results] is a plain object as well: assigning to
      [results["__proto__"]] stores no key.
    - Reading and parsing a file is the function [load], with [None] for
      the [null] of [loadTranslationFile]; a file is an object at top
      level, as the cast to [TranslationData] has it.  The module
      constant [LANGUAGES], read from the directory, is an argument.
    - Of what the script prints, the two counts of the summary line are
      kept; [process.exit(n)] is the [exitCode] of the report. *)

Module CheckTranslations.

Definition REFERENCE_LANG : string := "en".

#[local] Set Warnings "-register-all".
Inductive Json : Type :=
| JNull
| JBool (b : bool)
| JNumber (n : Q)
| JString (s : string)
| JArray (items : list Json)
| JObject (fields : list (string * Json)).

Abbreviation TranslationData := (list (string * Json)).

Record ValidationResult := {
  valid : bool;
  missing : list (list string);
  extra : list (list string);
}.

(** [typeof value === "object" && value !== null && !Array.isArray(value)] *)
Definition isPlainObject (value : Json) : bool :=
  match value with JObject _ => true | _ => false end.

(** [getAllKeyPaths] on the value it is called on; the inner loop is the
    [for ... in] over the own keys. *)
Fixpoint keyPathsOf (value : Json) (prefix : list string) : list (list string) :=
  match value with
  | JObject fields =>
      (fix loop (obj : list (string * Json)) : list (list string) :=
         match obj with
         | [] => []
         | (key, value) :: rest =>
             let currentPath := prefix ++ [key] in
             (if isPlainObject value
              then keyPathsOf value currentPath
              else [currentPath]) ++ loop rest
         end) fields
  | _ => []
  end.

Definition getAllKeyPaths (obj : TranslationData) (prefix : list string)
  : list (list string) :=
  keyPathsOf (JObject obj) prefix.

(** What [current] can be in [hasKeyPath]: a value of the parsed file,
    or what a step through the prototype chain yields, one of the two
    prototypes or a function of theirs. *)
Inductive Value : Type :=
| Parsed (j : Json)
| ObjectPrototype
| ArrayPrototype
| BuiltinFunction.

(** [typeof current === "object" && current !== null] *)
Definition isObject (current : Value) : bool :=
  match current with
  | Parsed (JArray _) | Parsed (JObject _) | ObjectPrototype | ArrayPrototype => true
  | _ => false
  end.

(** The index a key names in an array of [len] items: the key is the
    decimal numeral of an index below [len]. *)
Definition arrayIndex (key : string) (len : nat) : option nat :=
  find (λ i, bool_decide (pretty i = key)) (seq 0 len).

(** The own property [key] of a parsed value, with [None] for
    [undefined]: a field of an object, an item or the [length] of an
    array. *)
Definition ownProperty (current : Json) (key : string) : option Json :=
  match current with
  | JObject fields => snd <$> find (λ kv, bool_decide (kv.1 = key)) fields
  | JArray items =>
      if bool_decide (key = "length")
      then Some (JNumber (inject_Z (Z.of_nat (length items))))
      else i ← arrayIndex key (length items); items !! i
  | _ => None
  end.

(** The functions of [Array.prototype], as the language defines them
    (ECMAScript 2023). *)
Definition arrayPrototypeFunctions : list string :=
  ["at"; "concat"; "constructor"; "copyWithin"; "entries"; "every"; "fill";
   "filter"; "find"; "findIndex"; "findLast"; "findLastIndex"; "flat";
   "flatMap"; "forEach"; "includes"; "indexOf"; "join"; "keys";
   "lastIndexOf"; "map"; "pop"; "push"; "reduce"; "reduceRight"; "reverse";
   "shift"; "slice"; "some"; "sort"; "splice"; "toLocaleString";
   "toReversed"; "toSorted"; "toSpliced"; "toString"; "unshift"; "values";
   "with"].

(** A property looked up on [Object.prototype] for a receiver whose
    prototype is [proto]: the accessor [__proto__] yields [proto], every
    other member is a function. *)
Definition fromObjectPrototype (proto : Value) (key : string) : option Value :=
  if bool_decide (key = "__proto__") then Some proto
  else if inherited key then Some BuiltinFunction
  else None.

(** The same from [Array.prototype] on. *)
Definition fromArrayPrototype (proto : Value) (key : string) : option Value :=
  if bool_decide (key ∈ arrayPrototypeFunctions) then Some BuiltinFunction
  else fromObjectPrototype proto key.

(** [current[key]], with [None] for [undefined].  The prototype of
    [Object.prototype] is [null]. *)
Definition getProperty (current : Value) (key : string) : option Value :=
  match current with
  | Parsed (JObject fields) =>
      match ownProperty (JObject fields) key with
      | Some v => Some (Parsed v)
      | None => fromObjectPrototype ObjectPrototype key
      end
  | Parsed (JArray items) =>
      match ownProperty (JArray items) key with
      | Some v => Some (Parsed v)
      | None => fromArrayPrototype ArrayPrototype key
      end
  | ObjectPrototype => fromObjectPrototype (Parsed JNull) key
  | ArrayPrototype =>
      if bool_decide (key = "length") then Some (Parsed (JNumber 0))
      else fromArrayPrototype ObjectPrototype key
  | _ => None
  end.

(** The loop of [hasKeyPath], from the value [current]. *)
Fixpoint hasKeyPathFrom (current : Value) (keyPath : list string) : bool :=
  match keyPath with
  | [] => true
  | key :: rest =>
      if negb (isObject current) then false
      else match getProperty current key with
           | None => false
           | Some next => hasKeyPathFrom next rest
           end
  end.

Definition hasKeyPath (obj : TranslationData) (keyPath : list string) : bool :=
  hasKeyPathFrom (Parsed (JObject obj)) keyPath.

(** The body of the loop over [LANGUAGES] for a language that loaded:
    its missing and extra keys and the entry of [results]. *)
Definition languageResult (referenceData : TranslationData)
    (referenceKeyPaths : list (list string)) (langData : TranslationData)
  : ValidationResult :=
  let missing :=
    filter (λ keyPath, hasKeyPath langData keyPath = false) referenceKeyPaths in
  let langKeyPaths := getAllKeyPaths langData [] in
  let extra :=
    filter (λ keyPath, hasKeyPath referenceData keyPath = false) langKeyPaths in
  {| valid := bool_decide (length missing = 0) && bool_decide (length extra = 0);
     missing := missing;
     extra := extra |}.

(** [hasErrors] and [results], the two variables the loop updates. *)
Record Tracking := {
  hasErrors : bool;
  results : gmap string ValidationResult;
}.

(** [results[lang] = r]: an object assigned to [results["__proto__"]]
    becomes the prototype of [results] and no key is stored. *)
Definition assignResult (lang : string) (r : ValidationResult)
    (results : gmap string ValidationResult) : gmap string ValidationResult :=
  if bool_decide (lang = "__proto__") then results else <[ lang := r ]> results.

(** One turn of the loop over [LANGUAGES]. *)
Definition checkLanguage (load : string → option TranslationData)
    (referenceData : TranslationData) (referenceKeyPaths : list (list string))
    (t : Tracking) (lang : string) : Tracking :=
  match load lang with
  | None =>
      {| hasErrors := true;
         results := assignResult lang
                      {| valid := false; missing := []; extra := [] |}
                      (results t) |}
  | Some langData =>
      let r := languageResult referenceData referenceKeyPaths langData in
      {| hasErrors :=
           if bool_decide (0 < length (missing r) ∨ 0 < length (extra r))
           then true else hasErrors t;
         results := assignResult lang r (results t) |}
  end.

(** What a run ends with: the exit code, the results per language and,
    unless the reference failed to load, [validCount] and [totalCount]. *)
Record Report := {
  exitCode : nat;
  languageResults : gmap string ValidationResult;
  summary : option (nat * nat);
}.

Definition validateTranslations (load : string → option TranslationData)
    (LANGUAGES : list string) : Report :=
  match load REFERENCE_LANG with
  | None => {| exitCode := 1; languageResults := ∅; summary := None |}
  | Some referenceData =>
      let referenceKeyPaths := getAllKeyPaths referenceData [] in
      let t := foldl (checkLanguage load referenceData referenceKeyPaths)
                     {| hasErrors := false; results := ∅ |} LANGUAGES in
      let validCount :=
        length (filter (λ r, valid r = true) (snd <$> map_to_list (results t))) in
      let totalCount := length LANGUAGES in
      {| exitCode := if hasErrors t then 1 else 0;
         languageResults := results t;
         summary := Some (validCount, totalCount) |}
  end.

(** ** Predicates and sample data of the statements *)

(** No object of the value has a key twice. *)
Fixpoint uniqueKeys (value : Json) : bool :=
  match value with
  | JObject fields =>
      bool_decide (NoDup (fields.*1)) && forallb (λ kv, uniqueKeys kv.2) fields
  | JArray items => forallb uniqueKeys items
  | _ => true
  end.

(** Whether a language loads and has no missing and no extra key. *)
Definition languagePasses (load : string → option TranslationData)
    (referenceData : TranslationData) (lang : string) : bool :=
  match load lang with
  | Some langData =>
      valid (languageResult referenceData (getAllKeyPaths referenceData []) langData)
  | None => false
  end.

(** The entry of [results] for a language. *)
Definition resultFor (load : string → option TranslationData)
    (referenceData : TranslationData) (lang : string) : ValidationResult :=
  match load lang with
  | Some langData =>
      languageResult referenceData (getAllKeyPaths referenceData []) langData
  | None => {| valid := false; missing := []; extra := [] |}
  end.

(** The value of the file a key path leads to through own properties. *)
Fixpoint valueAt (current : Json) (keyPath : list string) : option Json :=
  match keyPath with
  | [] => Some current
  | key :: rest =>
      match ownProperty current key with
      | None => None
      | Some next => valueAt next rest
      end
  end.

(** No key of the value, at any depth, is the name of a member of
    [Object.prototype]. *)
Fixpoint ownNamesOnly (value : Json) : bool :=
  match value with
  | JObject fields =>
      forallb (λ kv, negb (inherited kv.1) && ownNamesOnly kv.2) fields
  | JArray items => forallb ownNamesOnly items
  | _ => true
  end.

(** A value with no array and no empty object in it, and no object with
    a repeated key. *)
Fixpoint plainTree (value : Json) : bool :=
  match value with
  | JArray _ => false
  | JObject fields =>
      match fields with [] => false | _ => true end
      && bool_decide (NoDup (fields.*1))
      && forallb (λ kv, plainTree kv.2) fields
  | _ => true
  end.

(** Translation data all of whose values are such. *)
Definition plainData (obj : TranslationData) : bool :=
  bool_decide (NoDup (obj.*1)) && forallb (λ kv, plainTree kv.2) obj.

(** A reference file, a complete translation of it, and one that lacks a
    key and has one of its own. *)
Definition sampleEn : TranslationData :=
  [("app", JObject [("title", JString "Handy"); ("quit", JString "Quit")]);
   ("ok", JString "OK")].
Definition sampleDe : TranslationData :=
  [("ok", JString "OK");
   ("app", JObject [("quit", JString "Beenden"); ("title", JString "Handy")])].
Definition sampleFr : TranslationData :=
  [("app", JObject [("title", JString "Handy")]); ("oui", JString "Oui")].

(** A directory with these three files and a broken fourth. *)
Definition sampleLoad (lang : string) : option TranslationData :=
  if bool_decide (lang = "en") then Some sampleEn
  else if bool_decide (lang = "de") then Some sampleDe
  else if bool_decide (lang = "fr") then Some sampleFr
  else None.

(** A reference with one key, a language that has a second key named
    like a member of [Object.prototype], and a directory with the two. *)
Definition sampleRef : TranslationData := [("ok", JString "OK")].
Definition sampleInheritedName : TranslationData :=
  [("ok", JString "OK"); ("toString", JString "text")].
Definition sampleLoadInherited (lang : string) : option TranslationData :=
  if bool_decide (lang = "en") then Some sampleRef
  else if bool_decide (lang = "xx") then Some sampleInheritedName
  else None.

(** A directory whose only language is named [__proto__]. *)
Definition sampleLoadProto (lang : string) : option TranslationData :=
  if bool_decide (lang = "en") then Some sampleRef
  else if bool_decide (lang = "__proto__") then Some sampleRef
  else None.

End CheckTranslations.

(** * Properties *)

(** ** The merge of [loadModels] *)

Lemma elem_of_foldl_prune (f : string → bool) (l : list string) (dm : gset string)
    (k : string) :
  k ∈ foldl (λ dm k, if f k then dm ∖ {[ k ]} else dm) dm l
  ↔ k ∈ dm ∧ ¬ (k ∈ l ∧ f k = true).
Proof.
  revert dm. induction l as [|a l IH]; intros dm; simpl.
  - rewrite elem_of_nil. tauto.
  - rewrite IH, elem_of_cons. destruct (f a) eqn:Ha.
    + rewrite elem_of_difference, elem_of_singleton.
      split.
      * intros [[Hk Hne] Hn]. split; [done|]. intros [[->|Hl] HP]; tauto.
      * intros [Hk Hn]. repeat split; [done| |tauto].
        intros ->. tauto.
    + split.
      * intros [Hk Hn]. split; [done|]. intros [[->|Hl] HP]; [congruence|tauto].
      * intros [Hk Hn]. split; [done|]. tauto.
Qed.

Lemma inherited_proto : inherited "__proto__" = true.
Proof. reflexivity. Qed.

Lemma not_inherited_proto (k : string) : inherited k = false → k ≠ "__proto__".
Proof. intros Hk ->. by rewrite inherited_proto in Hk. Qed.

Lemma elem_of_assignTrue (key k : string) (record : gset string) :
  k ∈ assignTrue key record ↔ (k = key ∧ key ≠ "__proto__") ∨ k ∈ record.
Proof.
  unfold assignTrue. case_bool_decide as Hkey.
  - split; [by right|]. by intros [[_ ?]|?].
  - rewrite elem_of_union, elem_of_singleton. tauto.
Qed.

Lemma assignTrue_own (key : string) (record : gset string) :
  key ≠ "__proto__" → assignTrue key record = {[ key ]} ∪ record.
Proof. intros Hkey. unfold assignTrue. by rewrite bool_decide_eq_false_2. Qed.

Lemma truthyAt_true (record : gset string) (k : string) :
  truthyAt record k = true ↔ k ∈ record ∨ inherited k = true.
Proof.
  unfold truthyAt. by rewrite orb_true_iff, bool_decide_eq_true.
Qed.

Lemma truthyEntry_true {V} (record : gmap string V) (k : string) :
  truthyEntry record k = true ↔ is_Some (record !! k) ∨ inherited k = true.
Proof.
  unfold truthyEntry. by rewrite orb_true_iff, bool_decide_eq_true.
Qed.

Lemma elem_of_foldl_assign {A} (g : A → string) (l : list A) (acc : gset string)
    (k : string) :
  k ∈ foldl (λ acc x, assignTrue (g x) acc) acc l
  ↔ ((∃ x, x ∈ l ∧ g x = k) ∧ k ≠ "__proto__") ∨ k ∈ acc.
Proof.
  revert acc. induction l as [|a l IH]; intros acc; simpl.
  - split; [by right|]. intros [[(x & Hx & _) _]|H]; [|done].
    by apply elem_of_nil in Hx.
  - rewrite IH, elem_of_assignTrue. split.
    + intros [[(x & Hx & Hg) Hk]|[[-> Hk]|H]].
      * left. split; [|done]. exists x. split; [by right|done].
      * left. split; [|done]. exists a. split; [by left|done].
      * by right.
    + intros [[(x & Hx & Hg) Hk]|H]; [|by right; right].
      apply elem_of_cons in Hx as [->|Hx].
      * right. left. split; [done|]. by rewrite Hg.
      * left. split; [|done]. by exists x.
Qed.

Lemma elem_of_backendDownloading (data : list ModelInfo) (k : string) :
  k ∈ backendDownloading data ↔ marksDownloading data k ∧ k ≠ "__proto__".
Proof.
  unfold backendDownloading, marksDownloading.
  rewrite (elem_of_foldl_assign id). split.
  - intros [[(m & Hm & Hid) Hk]|H]; [|by apply not_elem_of_empty in H].
    apply list_elem_of_filter in Hm as [Hd Hm]. split; [|done].
    exists m. repeat split; [done..|]. by apply Is_true_true.
  - intros [(m & Hm & Hid & Hd) Hk]. left. split; [|done]. exists m. split; [|done].
    apply list_elem_of_filter. split; [|done]. by apply Is_true_true.
Qed.

Lemma elem_of_syncDownloading (data : list ModelInfo) (s : ModelsStore) (k : string) :
  k ∈ downloadingModels (syncDownloading data s)
  ↔ k ∈ backendDownloading data
    ∨ (k ∈ downloadingModels s
       ∧ (inherited k = true ∨ is_Some (downloadProgress s !! k))).
Proof.
  unfold syncDownloading. simpl.
  rewrite (elem_of_foldl_prune
             (λ k, negb (truthyAt (backendDownloading data) k)
                   && negb (truthyEntry (downloadProgress s) k))).
  rewrite elem_of_elements, (elem_of_foldl_assign (λ k, k)).
  assert (((∃ x, x ∈ elements (backendDownloading data) ∧ x = k) ∧ k ≠ "__proto__")
          ↔ k ∈ backendDownloading data) as ->.
  { split.
    - intros [(x & Hx & ->) _]. by apply elem_of_elements.
    - intros Hk. split; [exists k; by rewrite elem_of_elements|].
      by apply elem_of_backendDownloading in Hk as [_ Hk]. }
  rewrite andb_true_iff, !negb_true_iff.
  pose proof (truthyAt_true (backendDownloading data) k) as Hb.
  pose proof (truthyEntry_true (downloadProgress s) k) as Hp.
  destruct (truthyAt (backendDownloading data) k),
    (truthyEntry (downloadProgress s) k), (inherited k);
    destruct (decide (k ∈ backendDownloading data)); intuition congruence.
Qed.

Lemma downloadingModels_loadModels_ok (data : list ModelInfo) (s : ModelsStore) (k : string) :
  k ∈ downloadingModels (loadModels (resolved (ok data)) s)
  ↔ (marksDownloading data k ∧ k ≠ "__proto__")
    ∨ (k ∈ downloadingModels s
       ∧ (inherited k = true ∨ is_Some (downloadProgress s !! k))).
Proof.
  unfold loadModels. cbn [set_loading downloadingModels].
  rewrite elem_of_syncDownloading, elem_of_backendDownloading. done.
Qed.



(** ** The error field under the two refreshes *)

(** The refresh of the model list does write the error field: it clears
    a message on success, here for the refresh that the
    [model-download-complete] listener starts. *)
Lemma loadModels_clears_error :
  let s := set_error (Some "Failed to extract model: disk full") initialStore in
  snd (onEvent 0 (ModelDownloadComplete "m1") s) = [LoadModels]
  ∧ runTask (LoadModelsReply (resolved (ok []))) = loadModels (resolved (ok []))
  ∧ error (fst (onEvent 0 (ModelDownloadComplete "m1") s))
    = Some "Failed to extract model: disk full"
  ∧ error (loadModels (resolved (ok []))
                      (fst (onEvent 0 (ModelDownloadComplete "m1") s))) = None.
Proof. repeat split. Qed.

(** C4, as the code has it.  [loadCurrentModel] leaves the error field
    as it was for every reply.  [loadModels], from wherever it is
    started, sets the field: to no message when the backend answers with
    a list, and to "Failed to load models: ..." when the backend rejects
    the command or the call throws. *)
Theorem refresh_error_field (s : ModelsStore) :
  (∀ r, error (loadCurrentModel r s) = error s)
  ∧ (∀ data, error (loadModels (resolved (ok data)) s) = None)
  ∧ (∀ e, error (loadModels (resolved (err e)) s)
          = Some ("Failed to load models: " +:+ e))
  ∧ (∀ e, error (loadModels (thrown e) s) = Some ("Failed to load models: " +:+ e)).
Proof.
  repeat split.
  intros [[data|e]|e]; reflexivity.
Qed.

(** ** cancelDownload *)

(** What [forgetDownload] leaves of the three records. *)
Lemma forgetDownload_spec (modelId : string) (s : ModelsStore) :
  let s' := forgetDownload modelId s in
  downloadingModels s' = downloadingModels s ∖ {[ modelId ]}
  ∧ downloadProgress s' = delete modelId (downloadProgress s)
  ∧ downloadStats s' = delete modelId (downloadStats s)
  ∧ models s' = models s ∧ currentModel s' = currentModel s
  ∧ extractingModels s' = extractingModels s ∧ loading s' = loading s
  ∧ error s' = error s ∧ hasAnyModels s' = hasAnyModels s
  ∧ isFirstRun s' = isFirstRun s ∧ initialized s' = initialized s.
Proof. repeat split. Qed.

(** C9.  When the backend accepts the cancel, [cancelDownload] returns
    [true] and its final state is that of [loadModels] run on a store
    from which the id is gone in [downloadingModels], [downloadProgress]
    and [downloadStats], the entries of every other id being as before.
    When the backend rejects it or the call throws, it returns [false],
    the error field holds "Failed to cancel download: ..." and nothing
    else of the store has changed. *)
Theorem cancelDownload_outcomes (modelId : string) (r : Reply unit)
    (rl : Reply (list ModelInfo)) (s : ModelsStore) :
  match failure r with
  | None =>
      ∃ s1, cancelDownload modelId r rl s = (loadModels rl s1, true)
            ∧ (modelId ∉ downloadingModels s1)
            ∧ downloadProgress s1 !! modelId = None
            ∧ downloadStats s1 !! modelId = None
            ∧ ∀ k, k ≠ modelId →
                   (k ∈ downloadingModels s1 ↔ k ∈ downloadingModels s)
                   ∧ downloadProgress s1 !! k = downloadProgress s !! k
                   ∧ downloadStats s1 !! k = downloadStats s !! k
  | Some e =>
      ∃ s', cancelDownload modelId r rl s = (s', false)
            ∧ error s' = Some ("Failed to cancel download: " +:+ e)
            ∧ sameButError s s'
  end.
Proof.
  destruct r as [[[]|e]|e]; simpl.
  - exists (forgetDownload modelId (clearError s)). split; [reflexivity|].
    cbn [forgetDownload clearError set_error set_downloadingModels
         set_downloadProgress set_downloadStats downloadingModels
         downloadProgress downloadStats].
    rewrite !lookup_delete_eq. split; [|do 2 (split; [done|])].
    + rewrite elem_of_difference, elem_of_singleton. tauto.
    + intros k Hk. rewrite !lookup_delete_ne by done.
      rewrite elem_of_difference, elem_of_singleton. tauto.
  - eexists. split; [reflexivity|]. by repeat split.
  - eexists. split; [reflexivity|]. by repeat split.
Qed.

(** ** checkFirstRun *)

(** C10.  On a failure status or a throw [checkFirstRun] returns [false]
    and the store is the one it was called on.  On success with answer
    [b] it stores [b] in [hasAnyModels] and its negation in [isFirstRun],
    returns that negation, and leaves the other fields alone. *)
Theorem checkFirstRun_outcomes (r : Reply bool) (s : ModelsStore) :
  match r with
  | resolved (ok b) =>
      let s' := fst (checkFirstRun r s) in
      snd (checkFirstRun r s) = negb b
      ∧ hasAnyModels s' = b ∧ isFirstRun s' = negb b
      ∧ models s' = models s ∧ currentModel s' = currentModel s
      ∧ downloadingModels s' = downloadingModels s
      ∧ extractingModels s' = extractingModels s
      ∧ downloadProgress s' = downloadProgress s
      ∧ downloadStats s' = downloadStats s
      ∧ loading s' = loading s ∧ error s' = error s
      ∧ initialized s' = initialized s
  | resolved (err _) | thrown _ => checkFirstRun r s = (s, false)
  end.
Proof. destruct r as [[b|e]|e]; simpl; by repeat split. Qed.

(** ** downloadModel when the backend says no *)

(** Whatever the store was, a failed [downloadModel] ends with the id out
    of [downloadingModels] and with the zeroed record still in
    [downloadProgress]: the failure branches delete the former only. *)
Lemma downloadModel_failure_state (modelId e : string) (r : Reply unit)
    (s : ModelsStore) :
  failure r = Some e →
  let s' := fst (downloadModel modelId r s) in
  snd (downloadModel modelId r s) = false
  ∧ error s' = Some ("Failed to download model: " +:+ e)
  ∧ (modelId ∉ downloadingModels s')
  ∧ downloadProgress s' !! modelId = Some (zeroProgress modelId)
  ∧ downloadStats s' = downloadStats s.
Proof.
  destruct r as [[[]|e']|e']; simpl; [done|intros [= ->]..];
    (do 2 (split; [done|]); split;
     [rewrite elem_of_difference, elem_of_singleton; tauto
     |by rewrite lookup_insert_eq]).
Qed.

(** C1, at a failing input.  From the initial store, where "m1" has no
    progress entry and is not downloading, [downloadModel "m1"] rejected
    by the backend returns [false] with the error set and "m1" out of
    [downloadingModels], but the zeroed progress entry for "m1" is still
    there. *)
Theorem downloadModel_rejected_leaves_progress :
  let r := downloadModel "m1" (resolved (err "disk full")) initialStore in
  downloadProgress initialStore !! "m1" = None
  ∧ ("m1" ∉ downloadingModels initialStore)
  ∧ snd r = false
  ∧ error (fst r) = Some "Failed to download model: disk full"
  ∧ ("m1" ∉ downloadingModels (fst r))
  ∧ downloadProgress (fst r) !! "m1"
    = Some {| model_id := "m1"; downloaded := 0; total := 0; percentage := 0 |}.
Proof.
  pose proof (downloadModel_failure_state "m1" "disk full"
                (resolved (err "disk full")) initialStore eq_refl) as H.
  cbv zeta in *. destruct H as (Hret & Herr & Hdm & Hp & _).
  split; [reflexivity|]. split; [apply not_elem_of_empty|].
  by repeat split.
Qed.

(** ** model-download-complete, delivered twice *)

Lemma ModelsStore_eq (s s' : ModelsStore) :
  models s = models s' → currentModel s = currentModel s' →
  downloadingModels s = downloadingModels s' →
  extractingModels s = extractingModels s' →
  downloadProgress s = downloadProgress s' →
  downloadStats s = downloadStats s' →
  loading s = loading s' → error s = error s' →
  hasAnyModels s = hasAnyModels s' → isFirstRun s = isFirstRun s' →
  initialized s = initialized s' → s = s'.
Proof. destruct s, s'; simpl; intros; by subst. Qed.

Lemma forgetDownload_idemp (modelId : string) (s : ModelsStore) :
  forgetDownload modelId (forgetDownload modelId s) = forgetDownload modelId s.
Proof.
  apply ModelsStore_eq; try reflexivity; simpl.
  - apply difference_twice_L.
  - apply delete_delete_eq.
  - apply delete_delete_eq.
Qed.

(** A refresh answered the same way twice ends where one refresh ends. *)
Lemma loadModels_idemp (r : Reply (list ModelInfo)) (s : ModelsStore) :
  loadModels r (loadModels r s) = loadModels r s.
Proof.
  destruct r as [[data|e]|e]; [|reflexivity..].
  apply ModelsStore_eq; try reflexivity.
  apply set_eq. intros k. rewrite !downloadingModels_loadModels_ok.
  change (downloadProgress (loadModels (resolved (ok data)) s))
    with (downloadProgress s).
  tauto.
Qed.

(** C8.  After one [model-download-complete] for an id, the id is in
    none of [downloadingModels], [downloadProgress], [downloadStats]; a
    second delivery right after it leaves the store as the first left
    it, and starts the same refresh.  With both refreshes answered alike
    the end state is that of one delivery and one refresh. *)
Theorem downloadComplete_twice (now now' : Q) (modelId : string) (s : ModelsStore) :
  let once := onEvent now (ModelDownloadComplete modelId) s in
  let twice := onEvent now' (ModelDownloadComplete modelId) (fst once) in
  (modelId ∉ downloadingModels (fst once))
  ∧ downloadProgress (fst once) !! modelId = None
  ∧ downloadStats (fst once) !! modelId = None
  ∧ twice = once
  ∧ ∀ rl, loadModels rl (loadModels rl (fst twice)) = loadModels rl (fst once).
Proof.
  cbv zeta. cbn [onEvent fst].
  rewrite forgetDownload_idemp.
  split; [|split; [|split; [|split]]].
  - cbn. rewrite elem_of_difference, elem_of_singleton. tauto.
  - cbn. apply lookup_delete_eq.
  - cbn. apply lookup_delete_eq.
  - reflexivity.
  - intros rl. apply loadModels_idemp.
Qed.

(** ** What one part of a run does to progress and stats *)

(** A part of a run leaves both records alone, or deletes one id from
    both, or writes one progress entry, or handles a progress event. *)
Lemma runSegment_progress_stats (g : Segment) (s : ModelsStore) :
  let s' := runSegment g s in
  (downloadProgress s' = downloadProgress s ∧ downloadStats s' = downloadStats s)
  ∨ (∃ k, downloadProgress s' = delete k (downloadProgress s)
          ∧ downloadStats s' = delete k (downloadStats s))
  ∨ (∃ k p, downloadProgress s' = <[ k := p ]> (downloadProgress s)
            ∧ downloadStats s' = downloadStats s)
  ∨ (∃ now p, downloadProgress s' = <[ model_id p := p ]> (downloadProgress s)
              ∧ downloadStats s' = updateStats now p (downloadStats s)).
Proof.
  destruct g as [now e|tr|r| |modelId r|modelId|modelId r|modelId r|r|v|v|v|v| ];
    cbn [runSegment]; try (left; split; reflexivity).
  - destruct e; cbn [onEvent fst]; try (left; split; reflexivity).
    + right; right; right. eexists now, payload. split; reflexivity.
    + right; left. exists payload. split; reflexivity.
    + right; left. exists payload. split; reflexivity.
  - destruct tr as [[[data|e]|e]|[[data|e]|e]]; left; split; reflexivity.
  - destruct r as [[b|e]|e]; left; split; reflexivity.
  - destruct r as [[[]|e]|e]; left; split; reflexivity.
  - right; right; left. eexists modelId, _. split; reflexivity.
  - destruct r as [[[]|e]|e]; left; split; reflexivity.
  - destruct r as [[[]|e]|e]; [|left; split; reflexivity..].
    right; left. exists modelId. split; reflexivity.
  - destruct r as [[[]|e]|e]; left; split; reflexivity.
Qed.

(** The entry [updateStats] holds for an id is the old one, or a fresh
    one for the first sample, or the one of an accepted sample. *)
Lemma updateStats_lookup (now : Q) (p : DownloadProgress)
    (stats : gmap string DownloadStats) (k : string) (st : DownloadStats) :
  updateStats now p stats !! k = Some st →
  stats !! k = Some st
  ∨ (k = model_id p ∧ stats !! k = None ∧ st = firstStats now p)
  ∨ (k = model_id p ∧ ∃ current, stats !! k = Some current
                                 ∧ gt (timeDiff now current) 0.5 = true
                                 ∧ st = acceptedStats now p current).
Proof.
  unfold updateStats. destruct (stats !! model_id p) as [current|] eqn:Hc.
  - destruct (gt (timeDiff now current) 0.5) eqn:Hgt; [|by left].
    destruct (decide (k = model_id p)) as [->|Hne].
    + rewrite lookup_insert_eq. intros [= <-]. right; right. eauto.
    + rewrite lookup_insert_ne by done. by left.
  - destruct (inherited (model_id p)); [by left|].
    destruct (decide (k = model_id p)) as [->|Hne].
    + rewrite lookup_insert_eq. intros [= <-]. right; left. done.
    + rewrite lookup_insert_ne by done. by left.
Qed.

Lemma updateStats_is_Some (now : Q) (p : DownloadProgress)
    (stats : gmap string DownloadStats) :
  inherited (model_id p) = false →
  is_Some (updateStats now p stats !! model_id p).
Proof.
  intros Hid. unfold updateStats. rewrite Hid.
  destruct (stats !! model_id p) as [current|] eqn:Hc.
  - destruct (gt (timeDiff now current) 0.5).
    + rewrite lookup_insert_eq. by eexists.
    + rewrite Hc. by eexists.
  - rewrite lookup_insert_eq. by eexists.
Qed.

Lemma updateStats_None (now : Q) (p : DownloadProgress)
    (stats : gmap string DownloadStats) :
  updateStats now p stats !! model_id p = None → inherited (model_id p) = true.
Proof.
  destruct (inherited (model_id p)) eqn:Hid; [done|].
  intros Hnone. destruct (updateStats_is_Some now p stats Hid) as [st Hst].
  by rewrite Hnone in Hst.
Qed.

Lemma updateStats_lookup_ne (now : Q) (p : DownloadProgress)
    (stats : gmap string DownloadStats) (k : string) :
  k ≠ model_id p → updateStats now p stats !! k = stats !! k.
Proof.
  intros Hne. unfold updateStats. destruct (stats !! model_id p) as [current|].
  - destruct (gt (timeDiff now current) 0.5); [|done]. by rewrite lookup_insert_ne.
  - destruct (inherited (model_id p)); [done|]. by rewrite lookup_insert_ne.
Qed.

(** ** Progress and stats entries go together only one way *)

Lemma statsHaveProgress_runSegment (g : Segment) (s : ModelsStore) :
  statsHaveProgress s → statsHaveProgress (runSegment g s).
Proof.
  intros Hinv k.
  destruct (runSegment_progress_stats g s)
    as [[-> ->]|[(j & -> & ->)|[(j & p & -> & ->)|(now & p & -> & ->)]]].
  - apply Hinv.
  - rewrite !lookup_delete_is_Some. intros [Hne Hs]. split; [done|by apply Hinv].
  - intros Hs. apply lookup_insert_is_Some'. right. by apply Hinv.
  - intros [st Hst]. apply lookup_insert_is_Some'.
    apply updateStats_lookup in Hst as [Hold|[[-> _]|[-> _]]]; [|by left..].
    right. apply Hinv. by eexists.
Qed.

Lemma statsHaveProgress_reachable (s : ModelsStore) :
  reachable s → statsHaveProgress s.
Proof.
  induction 1 as [|g s Hs IH].
  - intros k [st Hst]. cbn [initialStore downloadStats] in Hst.
    by rewrite lookup_empty in Hst.
  - by apply statsHaveProgress_runSegment.
Qed.

Lemma progressAloneIsFresh_runSegment (g : Segment) (s : ModelsStore) :
  progressAloneIsFresh s → progressAloneIsFresh (runSegment g s).
Proof.
  intros Hinv.
  assert (∀ j, progressAloneIsFresh (forgetDownload j s)) as Hdel.
  { intros j k p. cbn. intros [Hne Hp]%lookup_delete_Some.
    rewrite lookup_delete_ne by done. by apply Hinv. }
  destruct g as [now e|tr|r| |modelId r|modelId|modelId r|modelId r|r|v|v|v|v| ];
    cbn [runSegment]; try exact Hinv.
  - destruct e; cbn [onEvent fst]; try exact Hinv; try apply Hdel.
    intros k p. cbn. destruct (decide (k = model_id payload)) as [->|Hne].
    + intros _ Hnone. right. by apply (updateStats_None now payload (downloadStats s)).
    + rewrite lookup_insert_ne, updateStats_lookup_ne by done. apply Hinv.
  - destruct tr as [[[data|e]|e]|[[data|e]|e]]; exact Hinv.
  - destruct r as [[b|e]|e]; exact Hinv.
  - destruct r as [[[]|e]|e]; exact Hinv.
  - intros k p. cbn. destruct (decide (k = modelId)) as [->|Hne].
    + rewrite lookup_insert_eq. intros [= <-] _. by left.
    + rewrite lookup_insert_ne by done. apply Hinv.
  - destruct r as [[[]|e]|e]; exact Hinv.
  - destruct r as [[[]|e]|e]; [apply Hdel|exact Hinv..].
  - destruct r as [[[]|e]|e]; exact Hinv.
Qed.

Lemma progressAloneIsFresh_reachable (s : ModelsStore) :
  reachable s → progressAloneIsFresh s.
Proof.
  induction 1 as [|g s Hs IH].
  - intros k p Hp. cbn [initialStore downloadProgress] in Hp.
    by rewrite lookup_empty in Hp.
  - by apply progressAloneIsFresh_runSegment.
Qed.

Lemma reachable_afterSample1 : reachable afterSample1.
Proof.
  apply (reachable_segment (SegEvent 1000 (ModelDownloadProgress sample1))).
  apply reachable_initial.
Qed.

(** A download started locally and accepted by the backend has a
    progress entry and no stats entry: the pairing of C2 fails in a
    reachable state.  So it does after a progress event for an id that
    names a member of [Object.prototype]. *)
Lemma progress_without_stats :
  let s := fst (downloadModel "m1" (resolved (ok ())) initialStore) in
  let p := {| model_id := "constructor"; downloaded := 500; total := 1000;
              percentage := 50 |} in
  let s' := fst (onEvent 1000 (ModelDownloadProgress p) initialStore) in
  (reachable s
   ∧ is_Some (downloadProgress s !! "m1")
   ∧ downloadStats s !! "m1" = None)
  ∧ (reachable s'
     ∧ is_Some (downloadProgress s' !! "constructor")
     ∧ downloadStats s' !! "constructor" = None).
Proof.
  split; (split; [|split]).
  - apply (reachable_segment (SegDownloadReply "m1" (resolved (ok ())))).
    apply (reachable_segment (SegDownloadStart "m1")).
    apply reachable_initial.
  - eexists. cbn. apply lookup_insert_eq.
  - reflexivity.
  - apply (reachable_segment (SegEvent 1000 (ModelDownloadProgress _))).
    apply reachable_initial.
  - eexists. cbn. apply lookup_insert_eq.
  - reflexivity.
Qed.

(** C2, as the code has it.  In every reachable state an id with a
    [downloadStats] entry has a [downloadProgress] entry; and a progress
    entry stands without a stats entry only when it is the zeroed record
    that [downloadModel] writes, or when its id names a member of
    [Object.prototype] (for such an id the listener writes no stats).
    Every part of a run keeps both so, and a progress event for any
    other id leaves both entries present. *)
Theorem stats_entry_has_progress (s : ModelsStore) :
  reachable s →
  (∀ k, is_Some (downloadStats s !! k) → is_Some (downloadProgress s !! k))
  ∧ (∀ k p, downloadProgress s !! k = Some p → downloadStats s !! k = None →
            p = zeroProgress k ∨ inherited k = true)
  ∧ (∀ g k, is_Some (downloadStats (runSegment g s) !! k) →
            is_Some (downloadProgress (runSegment g s) !! k))
  ∧ (∀ g k p, downloadProgress (runSegment g s) !! k = Some p →
              downloadStats (runSegment g s) !! k = None →
              p = zeroProgress k ∨ inherited k = true)
  ∧ (∀ now p, inherited (model_id p) = false →
              let s' := fst (onEvent now (ModelDownloadProgress p) s) in
              is_Some (downloadProgress s' !! model_id p)
              ∧ is_Some (downloadStats s' !! model_id p)).
Proof.
  intros Hs. pose proof (statsHaveProgress_reachable s Hs) as Hinv.
  pose proof (progressAloneIsFresh_reachable s Hs) as Hfresh.
  split; [exact Hinv|]. split; [exact Hfresh|]. split; [|split].
  - intros g. by apply statsHaveProgress_runSegment.
  - intros g. by apply progressAloneIsFresh_runSegment.
  - intros now p Hid. cbn. split.
    + rewrite lookup_insert_eq. by eexists.
    + by apply updateStats_is_Some.
Qed.

Lemma stats_entry_has_progress_witness :
  reachable afterSample1
  ∧ is_Some (downloadStats afterSample1 !! "m1")
  ∧ is_Some (downloadProgress afterSample1 !! "m1").
Proof.
  split; [exact reachable_afterSample1|].
  assert (is_Some (downloadStats afterSample1 !! "m1")) as Hst.
  { exists (firstStats 1000 sample1). reflexivity. }
  split; [exact Hst|].
  exact (proj1 (stats_entry_has_progress afterSample1 reachable_afterSample1) "m1" Hst).
Defined.

(** ** The estimator *)

Section EstimatorFacts.
Local Open Scope Q_scope.

Lemma Math_max_lower (a b : Q) : a <= Math.max a b.
Proof.
  unfold Math.max. destruct (Qlt_le_dec a b) as [Hlt|Hle].
  - by apply Qlt_le_weak.
  - apply Qle_refl.
Qed.

Lemma Math_max_of_le (a b : Q) : a <= b → Math.max a b == b.
Proof.
  intros Hab. unfold Math.max. destruct (Qlt_le_dec a b) as [Hlt|Hle].
  - reflexivity.
  - by apply Qle_antisym.
Qed.

Lemma Math_max_of_ge (a b : Q) : b <= a → Math.max a b = a.
Proof.
  intros Hba. unfold Math.max. destruct (Qlt_le_dec a b) as [Hlt|Hle]; [|done].
  exfalso. by apply (Qlt_not_le a b).
Qed.

Lemma gt_true (a b : Q) : gt a b = true ↔ b < a.
Proof.
  unfold gt. destruct (Qlt_le_dec b a) as [Hlt|Hle]; split; try done.
  intros Hlt. exfalso. by apply (Qlt_not_le b a).
Qed.

Lemma gt_false (a b : Q) : gt a b = false ↔ a <= b.
Proof.
  unfold gt. destruct (Qlt_le_dec b a) as [Hlt|Hle]; split; try done.
  intros Hle. exfalso. by apply (Qlt_not_le b a).
Qed.

Lemma Qdiv_neg_pos (a b : Q) : a < 0 → 0 < b → a / b < 0.
Proof.
  intros Ha Hb. unfold Qdiv.
  assert (0 < / b) as Hi by (by apply Qinv_lt_0_compat).
  pose proof (Qmult_lt_compat_r a 0 (/ b) Hi Ha) as H.
  by rewrite Qmult_0_l in H.
Qed.

Lemma validCurrentSpeed_nonneg now p current :
  0 <= validCurrentSpeed now p current.
Proof. apply Math_max_lower. Qed.

Lemma smoothedSpeed_nonneg now p current :
  0 <= smoothedSpeed now p current.
Proof.
  unfold smoothedSpeed. pose proof (validCurrentSpeed_nonneg now p current) as Hv.
  destruct (gt (speed current) 0) eqn:Hgt; [|done].
  apply gt_true in Hgt. lra.
Qed.
End EstimatorFacts.

Lemma speedsNonneg_runSegment (g : Segment) (s : ModelsStore) :
  speedsNonneg s → speedsNonneg (runSegment g s).
Proof.
  intros Hinv k st.
  destruct (runSegment_progress_stats g s)
    as [[_ ->]|[(j & _ & ->)|[(j & p & _ & ->)|(now & p & _ & ->)]]].
  - apply Hinv.
  - intros [_ Hst]%lookup_delete_Some. by apply (Hinv k).
  - apply Hinv.
  - intros Hst.
    apply updateStats_lookup in Hst as [Hold|[(_ & _ & ->)|(_ & cur & _ & _ & ->)]].
    + by apply (Hinv k).
    + apply Qle_refl.
    + apply Math_max_lower.
Qed.

Lemma speedsNonneg_reachable (s : ModelsStore) : reachable s → speedsNonneg s.
Proof.
  induction 1 as [|g s Hs IH].
  - intros k st Hst. cbn [initialStore downloadStats] in Hst.
    by rewrite lookup_empty in Hst.
  - by apply speedsNonneg_runSegment.
Qed.

(** The entry a progress event stores when the id has stats already. *)
Lemma downloadStats_onDownloadProgress (s : ModelsStore) (now : Q)
    (p : DownloadProgress) (current : DownloadStats) :
  downloadStats s !! model_id p = Some current →
  downloadStats (onDownloadProgress now p s)
  = if gt (timeDiff now current) 0.5
    then <[ model_id p := acceptedStats now p current ]> (downloadStats s)
    else downloadStats s.
Proof. intros Hc. cbn. unfold updateStats. by rewrite Hc. Qed.

(** Samples at 1,000,000 and 2,000,000 bytes, 1.0 second apart, the
    stored speed being 0 before the second: the stored speed becomes
    1,000,000 / 1,048,576 (MB per second).  That is neither the rate of
    the formula without the scale, nor that rate blended with the stored
    speed of 0. *)
Lemma accepted_sample_speed_is_in_megabytes :
  let s' := fst (onEvent 2000 (ModelDownloadProgress sample2) afterSample1) in
  let current := firstStats 1000 sample1 in
  let rate := specInstantaneousRate 1 sample2 current in
  downloadStats afterSample1 !! "m1" = Some current
  ∧ Qred (timeDiff 2000 current) = 1%Q
  ∧ speed current = 0%Q
  ∧ ∃ st, downloadStats s' !! "m1" = Some st
          ∧ Qred (speed st) = (15625 # 16384)%Q
          ∧ Qred rate = 1000000%Q
          ∧ ¬ (speed st == rate)%Q
          ∧ ¬ (speed st == speed current * 0.8 + rate * 0.2)%Q.
Proof.
  do 3 (split; [reflexivity|]).
  exists (acceptedStats 2000 sample2 (firstStats 1000 sample1)).
  do 3 (split; [reflexivity|]).
  split; intros H; vm_compute in H; discriminate H.
Qed.

Section EstimatorClaims.
Local Open Scope Q_scope.

(** C5, as the code has it.  For a sample that finds stats for its id
    and comes more than 0.5 s after their [lastUpdate] (the clock is in
    milliseconds), the stored entry keeps [startTime], takes the
    sample's clock and byte count, and its speed is: with the
    instantaneous rate max(0, byte delta / (1024 * 1024) / elapsed
    seconds), the old speed * 0.8 + that rate * 0.2 when the old speed
    is above zero, and that rate otherwise. *)
Theorem accepted_sample_update (s : ModelsStore) (now : Q)
    (p : DownloadProgress) (current : DownloadStats) :
  downloadStats s !! model_id p = Some current →
  0.5 < (now - lastUpdate current) / 1000 →
  let rate :=
    Math.max 0 ((downloaded p - totalDownloaded current) / (1024 * 1024)
                / ((now - lastUpdate current) / 1000)) in
  ∃ st,
    downloadStats (fst (onEvent now (ModelDownloadProgress p) s)) !! model_id p
    = Some st
    ∧ startTime st = startTime current
    ∧ lastUpdate st = now
    ∧ totalDownloaded st = downloaded p
    ∧ (0 < speed current → speed st == speed current * 0.8 + rate * 0.2)
    ∧ (speed current <= 0 → speed st == rate).
Proof.
  intros Hc Ht rate. cbn [onEvent fst].
  rewrite (downloadStats_onDownloadProgress s now p current Hc).
  apply gt_true in Ht. fold (timeDiff now current) in Ht.
  rewrite Ht, lookup_insert_eq.
  exists (acceptedStats now p current). do 4 (split; [reflexivity|]).
  cbn [acceptedStats speed].
  rewrite (Math_max_of_le 0 _ (smoothedSpeed_nonneg now p current)).
  unfold smoothedSpeed. split.
  - intros Hpos. apply gt_true in Hpos. rewrite Hpos. reflexivity.
  - intros Hnp. apply gt_false in Hnp. rewrite Hnp. reflexivity.
Qed.

Lemma accepted_sample_update_witness :
  ∃ st,
    downloadStats (fst (onEvent 2000 (ModelDownloadProgress sample2) afterSample1))
      !! "m1" = Some st
    ∧ startTime st = 1000 ∧ lastUpdate st = 2000
    ∧ totalDownloaded st = 2000000.
Proof.
  destruct (accepted_sample_update afterSample1 2000 sample2
              (firstStats 1000 sample1) eq_refl eq_refl)
    as (st & Hst & Hstart & Hlast & Htotal & _).
  exists st. repeat split; assumption.
Defined.

(** C6.  A sample that finds stats for its id and comes 0.5 s or less
    after their [lastUpdate] replaces the progress entry of the id and
    leaves [downloadStats] as it was, for this id and every other; no
    other field of the store changes either. *)
Theorem debounced_sample_keeps_stats (s : ModelsStore) (now : Q)
    (p : DownloadProgress) (current : DownloadStats) :
  downloadStats s !! model_id p = Some current →
  (now - lastUpdate current) / 1000 <= 0.5 →
  let s' := fst (onEvent now (ModelDownloadProgress p) s) in
  downloadProgress s' = <[ model_id p := p ]> (downloadProgress s)
  ∧ downloadStats s' = downloadStats s
  ∧ downloadStats s' !! model_id p = Some current
  ∧ downloadingModels s' = downloadingModels s
  ∧ extractingModels s' = extractingModels s
  ∧ models s' = models s ∧ currentModel s' = currentModel s
  ∧ loading s' = loading s ∧ error s' = error s
  ∧ hasAnyModels s' = hasAnyModels s ∧ isFirstRun s' = isFirstRun s
  ∧ initialized s' = initialized s.
Proof.
  intros Hc Ht s'. subst s'. cbn [onEvent fst].
  rewrite (downloadStats_onDownloadProgress s now p current Hc).
  apply gt_false in Ht. fold (timeDiff now current) in Ht.
  rewrite Ht. by repeat split.
Qed.

Lemma debounced_sample_keeps_stats_witness :
  let s' := fst (onEvent 1500 (ModelDownloadProgress sample2) afterSample1) in
  downloadProgress s' !! "m1" = Some sample2
  ∧ downloadStats s' !! "m1" = Some (firstStats 1000 sample1).
Proof.
  destruct (debounced_sample_keeps_stats afterSample1 1500 sample2
              (firstStats 1000 sample1) eq_refl)
    as (Hp & _ & Hst & _).
  - vm_compute. discriminate.
  - cbv zeta. split; [|exact Hst].
    rewrite Hp. apply lookup_insert_eq.
Defined.

(** C7.  In a reachable state, a sample accepted for the estimator
    (more than 0.5 s after the last one) whose byte count is below the
    stored total contributes an instantaneous rate of exactly zero, so
    that the stored speed is the old speed * 0.8 or zero; and after any
    progress event at all, every stored speed is at least zero. *)
Theorem negative_delta_clamp (s : ModelsStore) (now : Q) (p : DownloadProgress) :
  reachable s →
  let s' := fst (onEvent now (ModelDownloadProgress p) s) in
  (∀ current,
     downloadStats s !! model_id p = Some current →
     0.5 < timeDiff now current →
     downloaded p < totalDownloaded current →
     validCurrentSpeed now p current = 0
     ∧ ∃ st, downloadStats s' !! model_id p = Some st
             ∧ speed st == (if gt (speed current) 0 then speed current * 0.8 else 0))
  ∧ (∀ k st, downloadStats s' !! k = Some st → 0 <= speed st).
Proof.
  intros Hs s'. split.
  - intros current Hc Ht Hb.
    assert (validCurrentSpeed now p current = 0) as Hv.
    { apply Math_max_of_ge, Qlt_le_weak. unfold currentSpeed, bytesDiff.
      apply Qdiv_neg_pos; [apply Qdiv_neg_pos; [lra|reflexivity]|lra]. }
    split; [exact Hv|]. subst s'. cbn [onEvent fst].
    rewrite (downloadStats_onDownloadProgress s now p current Hc).
    apply gt_true in Ht. rewrite Ht, lookup_insert_eq.
    eexists. split; [reflexivity|]. cbn [acceptedStats speed].
    rewrite (Math_max_of_le 0 _ (smoothedSpeed_nonneg now p current)).
    unfold smoothedSpeed. rewrite Hv.
    destruct (gt (speed current) 0); [lra|reflexivity].
  - apply (speedsNonneg_runSegment (SegEvent now (ModelDownloadProgress p))).
    by apply speedsNonneg_reachable.
Qed.

Lemma negative_delta_clamp_witness :
  validCurrentSpeed 2000 sampleRestarted (firstStats 1000 sample1) = 0
  ∧ ∀ k st,
      downloadStats
        (fst (onEvent 2000 (ModelDownloadProgress sampleRestarted) afterSample1))
        !! k = Some st → 0 <= speed st.
Proof.
  destruct (negative_delta_clamp afterSample1 2000 sampleRestarted
              reachable_afterSample1) as [Hclamp Hnonneg].
  split; [|exact Hnonneg].
  apply (Hclamp (firstStats 1000 sample1)); reflexivity.
Defined.
End EstimatorClaims.

(** ** Further properties of the store *)

(** One progress event changes nothing but the progress and stats
    entries of its id, and leaves a progress entry for that id. *)
Lemma onDownloadProgress_frame (now : Q) (p : DownloadProgress) (s : ModelsStore) :
  let s' := onDownloadProgress now p s in
  is_Some (downloadProgress s' !! model_id p)
  ∧ delete (model_id p) (downloadProgress s') = delete (model_id p) (downloadProgress s)
  ∧ delete (model_id p) (downloadStats s') = delete (model_id p) (downloadStats s)
  ∧ downloadingModels s' = downloadingModels s
  ∧ extractingModels s' = extractingModels s
  ∧ models s' = models s ∧ currentModel s' = currentModel s
  ∧ loading s' = loading s ∧ error s' = error s
  ∧ hasAnyModels s' = hasAnyModels s ∧ isFirstRun s' = isFirstRun s
  ∧ initialized s' = initialized s.
Proof.
  cbn. split; [rewrite lookup_insert_eq; by eexists|].
  split; [apply delete_insert_eq|]. split; [|by repeat split].
  unfold updateStats. destruct (downloadStats s !! model_id p) as [current|].
  - destruct (gt (timeDiff now current) 0.5); [apply delete_insert_eq|done].
  - destruct (inherited (model_id p)); [done|apply delete_insert_eq].
Qed.

Lemma deliverAll_progress_frame (modelId : string) (events : list (Q * Event))
    (s : ModelsStore) :
  Forall (λ ev, ∃ p, ev.2 = ModelDownloadProgress p ∧ model_id p = modelId) events →
  let s' := deliverAll events s in
  (is_Some (downloadProgress s !! modelId) → is_Some (downloadProgress s' !! modelId))
  ∧ delete modelId (downloadProgress s') = delete modelId (downloadProgress s)
  ∧ delete modelId (downloadStats s') = delete modelId (downloadStats s)
  ∧ downloadingModels s' = downloadingModels s
  ∧ extractingModels s' = extractingModels s
  ∧ models s' = models s ∧ currentModel s' = currentModel s
  ∧ loading s' = loading s ∧ error s' = error s
  ∧ hasAnyModels s' = hasAnyModels s ∧ isFirstRun s' = isFirstRun s
  ∧ initialized s' = initialized s.
Proof.
  intros Hall. revert s. induction Hall as [|[now e] events (p & He & Hid) _ IH];
    intros s; [by repeat split|].
  cbn [snd] in He. subst e modelId.
  change (deliverAll ((now, ModelDownloadProgress p) :: events) s)
    with (deliverAll events (onDownloadProgress now p s)).
  specialize (IH (onDownloadProgress now p s)).
  pose proof (onDownloadProgress_frame now p s) as Hstep. cbv zeta in *.
  destruct Hstep as (Hsome & Hstep).
  destruct IH as (Hkeep & -> & -> & -> & -> & -> & -> & -> & -> & -> & -> & ->).
  split; [intros _; by apply Hkeep|exact Hstep].
Qed.

(** X1.  A download from start to end, for an id that does not name a
    member of [Object.prototype].  When [downloadModel] is accepted by
    the backend, any number of progress events for that id follow, and
    [model-download-complete] arrives, then the id counts as downloading
    and has a progress entry of its own until that last event;
    afterwards the store is the one before the call with the error
    cleared and the id taken out of [downloadingModels],
    [downloadProgress] and [downloadStats], the two queries answer "not
    downloading" and undefined, and one [loadModels] has been
    started. *)
Theorem download_cycle (modelId : string) (events : list (Q * Event)) (now : Q)
    (s : ModelsStore) :
  inherited modelId = false →
  Forall (λ ev, ∃ p, ev.2 = ModelDownloadProgress p ∧ model_id p = modelId) events →
  let started := downloadModel modelId (resolved (ok ())) s in
  let s2 := deliverAll events (fst started) in
  let completed := onEvent now (ModelDownloadComplete modelId) s2 in
  snd started = true
  ∧ isModelDownloading modelId s2 = true
  ∧ (∃ p, getDownloadProgress modelId s2 = Own p)
  ∧ fst completed = forgetDownload modelId (clearError s)
  ∧ isModelDownloading modelId (fst completed) = false
  ∧ getDownloadProgress modelId (fst completed) = Undefined
  ∧ downloadStats (fst completed) !! modelId = None
  ∧ snd completed = [LoadModels].
Proof.
  intros Hid Hall started s2 completed.
  pose proof (deliverAll_progress_frame modelId events (fst started) Hall) as Hf.
  cbv zeta in Hf. fold s2 in Hf.
  destruct Hf as (Hkeep & Hp & Hst & Hdm & Hex & Hm & Hc & Hl & He & Hh & Hi & Hn).
  subst started completed.
  cbn [downloadModel downloadModel_reply downloadModel_start clearError fst snd
       set_error set_downloadingModels set_downloadProgress downloadingModels
       downloadProgress downloadStats extractingModels models currentModel
       loading error hasAnyModels isFirstRun initialized] in *.
  cbn [onEvent fst snd]. split; [done|].
  rewrite delete_insert_eq in Hp.
  rewrite (assignTrue_own modelId) in Hdm by by apply not_inherited_proto.
  split; [|split; [|split; [|split; [|split; [|split; [|done]]]]]].
  - apply truthyAt_true. left. rewrite Hdm.
    apply elem_of_union. left. by apply elem_of_singleton.
  - unfold getDownloadProgress, readEntry.
    destruct Hkeep as [q Hq]; [rewrite lookup_insert_eq; by eexists|].
    rewrite Hq. by exists q.
  - apply ModelsStore_eq; cbn; try done.
    rewrite Hdm. apply set_eq. intros k.
    rewrite !elem_of_difference, elem_of_union, elem_of_singleton. tauto.
  - unfold isModelDownloading, truthyAt. rewrite Hid, orb_false_r.
    apply bool_decide_eq_false. cbn.
    rewrite elem_of_difference, elem_of_singleton. tauto.
  - unfold getDownloadProgress, readEntry. cbn. by rewrite lookup_delete_eq, Hid.
  - apply lookup_delete_eq.
Qed.

Lemma download_cycle_witness :
  let events := [(1000%Q, ModelDownloadProgress sample1);
                 (2000%Q, ModelDownloadProgress sample2)] in
  fst (onEvent 3000 (ModelDownloadComplete "m1")
         (deliverAll events (fst (downloadModel "m1" (resolved (ok ())) initialStore))))
  = forgetDownload "m1" (clearError initialStore).
Proof.
  refine (proj1 (proj2 (proj2 (proj2
            (download_cycle "m1" [(1000%Q, ModelDownloadProgress sample1);
                                  (2000%Q, ModelDownloadProgress sample2)]
               3000 initialStore eq_refl _))))).
  repeat constructor; eexists; split; reflexivity.
Defined.

(** X2.  A refresh of the model list answered the same way twice in a
    row ends in the state one refresh ends in. *)
Theorem loadModels_twice (r : Reply (list ModelInfo)) (s : ModelsStore) :
  loadModels r (loadModels r s) = loadModels r s.
Proof. apply loadModels_idemp. Qed.

Section Smoothing.
Local Open Scope Q_scope.

Lemma accepted_after_lastUpdate (now : Q) (current : DownloadStats) :
  gt (timeDiff now current) 0.5 = true → lastUpdate current < now.
Proof.
  intros Hgt. apply gt_true in Hgt. unfold timeDiff in Hgt.
  assert (now - lastUpdate current == (now - lastUpdate current) / 1000 * 1000)
    as E by field.
  lra.
Qed.

(** X4.  No part of a run rewrites the start time of a stats entry that
    is already there, nor moves its last update back: an entry that
    survives a part keeps [startTime], and its [lastUpdate] is the old
    one or a later clock. *)
Theorem stats_clocks_step (g : Segment) (s : ModelsStore) (k : string)
    (st st' : DownloadStats) :
  downloadStats s !! k = Some st →
  downloadStats (runSegment g s) !! k = Some st' →
  startTime st' = startTime st
  ∧ lastUpdate st <= lastUpdate st'
  ∧ (lastUpdate st' = lastUpdate st → st' = st).
Proof.
  intros Hst Hst'.
  destruct (runSegment_progress_stats g s)
    as [[_ E]|[(j & _ & E)|[(j & p & _ & E)|(now & p & _ & E)]]];
    rewrite E in Hst'; clear E.
  - rewrite Hst in Hst'. injection Hst' as <-. split; [done|]. split; [lra|done].
  - apply lookup_delete_Some in Hst' as [_ Hst']. rewrite Hst in Hst'.
    injection Hst' as <-. split; [done|]. split; [lra|done].
  - rewrite Hst in Hst'. injection Hst' as <-. split; [done|]. split; [lra|done].
  - apply updateStats_lookup in Hst'
      as [Hold|[(_ & Hnone & _)|(_ & current & Hc & Hgt & ->)]].
    + rewrite Hst in Hold. injection Hold as <-. split; [done|]. split; [lra|done].
    + by rewrite Hst in Hnone.
    + rewrite Hst in Hc. injection Hc as <-.
      apply accepted_after_lastUpdate in Hgt. cbn [acceptedStats startTime lastUpdate].
      split; [done|]. split; [lra|].
      intros ->. exfalso. lra.
Qed.

Lemma stats_clocks_step_witness :
  ∃ st', downloadStats
           (runSegment (SegEvent 2000 (ModelDownloadProgress sample2)) afterSample1)
           !! "m1" = Some st'
         ∧ startTime st' = 1000 ∧ 1000 <= lastUpdate st'.
Proof.
  exists (acceptedStats 2000 sample2 (firstStats 1000 sample1)).
  destruct (stats_clocks_step (SegEvent 2000 (ModelDownloadProgress sample2))
              afterSample1 "m1" (firstStats 1000 sample1)
              (acceptedStats 2000 sample2 (firstStats 1000 sample1))
              eq_refl eq_refl) as (Hstart & Hlast & _).
  split; [reflexivity|]. split; [exact Hstart|exact Hlast].
Defined.

Lemma clocksOrdered_runSegment (g : Segment) (s : ModelsStore) :
  clocksOrdered s → clocksOrdered (runSegment g s).
Proof.
  intros Hinv k st'.
  destruct (runSegment_progress_stats g s)
    as [[_ ->]|[(j & _ & ->)|[(j & p & _ & ->)|(now & p & _ & ->)]]].
  - apply Hinv.
  - intros [_ Hst]%lookup_delete_Some. by apply (Hinv k).
  - apply Hinv.
  - intros Hst'.
    apply updateStats_lookup in Hst'
      as [Hold|[(_ & _ & ->)|(_ & current & Hc & Hgt & ->)]].
    + by apply (Hinv k).
    + cbn. lra.
    + apply accepted_after_lastUpdate in Hgt. apply Hinv in Hc.
      cbn [acceptedStats startTime lastUpdate]. lra.
Qed.

(** X5.  In every reachable state each stats entry has its start time
    at or before its last update. *)
Theorem start_before_last_update (s : ModelsStore) (k : string) (st : DownloadStats) :
  reachable s →
  downloadStats s !! k = Some st →
  startTime st <= lastUpdate st.
Proof.
  intros Hs. revert k st. change (clocksOrdered s).
  induction Hs as [|g s Hs IH].
  - intros k st Hst. cbn [initialStore downloadStats] in Hst.
    by rewrite lookup_empty in Hst.
  - by apply clocksOrdered_runSegment.
Qed.

Lemma start_before_last_update_witness :
  startTime (firstStats 1000 sample1) <= lastUpdate (firstStats 1000 sample1).
Proof.
  exact (start_before_last_update afterSample1 "m1" (firstStats 1000 sample1)
           reachable_afterSample1 eq_refl).
Defined.
End Smoothing.

(** X6.  In every reachable state a progress entry stored under an id
    carries that id as its [model_id]. *)
Theorem progress_entries_keyed (s : ModelsStore) (k : string) (p : DownloadProgress) :
  reachable s →
  downloadProgress s !! k = Some p →
  model_id p = k.
Proof.
  intros Hs. revert k p. change (progressKeyed s).
  induction Hs as [|g s Hs IH].
  - intros k p Hp. cbn [initialStore downloadProgress] in Hp.
    by rewrite lookup_empty in Hp.
  - assert (∀ j q, model_id q = j →
                   progressKeyed (set_downloadProgress
                                    (<[ j := q ]> (downloadProgress s)) s)) as Hins.
    { intros j q Hq k p. cbn. destruct (decide (k = j)) as [->|Hne].
      - rewrite lookup_insert_eq. by intros [= <-].
      - rewrite lookup_insert_ne by done. apply IH. }
    assert (∀ j, progressKeyed (forgetDownload j s)) as Hdel.
    { intros j k p. cbn. intros [_ Hp]%lookup_delete_Some. by apply IH. }
    destruct g as [now e|tr|r| |modelId r|modelId|modelId r|modelId r|r|v|v|v|v| ];
      cbn [runSegment]; try exact IH.
    + destruct e; cbn [onEvent fst]; try exact IH; try apply Hdel.
      intros k p. cbn. apply (Hins (model_id payload) payload eq_refl).
    + destruct tr as [[[data|e]|e]|[[data|e]|e]]; exact IH.
    + destruct r as [[b|e]|e]; exact IH.
    + destruct r as [[[]|e]|e]; exact IH.
    + intros k p. cbn. apply (Hins modelId (zeroProgress modelId) eq_refl).
    + destruct r as [[[]|e]|e]; exact IH.
    + destruct r as [[[]|e]|e]; [apply Hdel|exact IH..].
    + destruct r as [[[]|e]|e]; exact IH.
Qed.

Lemma progress_entries_keyed_witness : model_id sample1 = "m1".
Proof.
  exact (progress_entries_keyed afterSample1 "m1" sample1
           reachable_afterSample1 eq_refl).
Defined.

(** ** Listeners and actions *)

(** Membership in a set built with union, difference and singletons. *)
Ltac membership :=
  rewrite ?elem_of_difference, ?elem_of_union, ?elem_of_singleton; tauto.

Lemma updateStats_idemp (now : Q) (p : DownloadProgress)
    (stats : gmap string DownloadStats) :
  updateStats now p (updateStats now p stats) = updateStats now p stats.
Proof.
  assert (∀ st, lastUpdate st = now → gt (timeDiff now st) 0.5 = false) as Hsame.
  { intros st Hl. apply gt_false. unfold timeDiff, Qdiv. rewrite Hl. lra. }
  unfold updateStats at 2.
  destruct (stats !! model_id p) as [current|] eqn:Hc.
  - destruct (gt (timeDiff now current) 0.5) eqn:Hgt.
    + unfold updateStats. rewrite lookup_insert_eq, Hc, Hgt.
      by rewrite (Hsame (acceptedStats now p current) eq_refl).
    + unfold updateStats. by rewrite Hc, Hgt.
  - destruct (inherited (model_id p)) eqn:Hid.
    + unfold updateStats. by rewrite Hc, Hid.
    + unfold updateStats. rewrite lookup_insert_eq, Hc, Hid.
      by rewrite (Hsame (firstStats now p) eq_refl).
Qed.

(** X7.  Every listener is idempotent at one clock reading: handling the
    same event a second time at the same clock leaves the store as the
    first handling left it, and starts the same refreshes again. *)
Theorem listener_idempotent (now : Q) (e : Event) (s : ModelsStore) :
  let once := onEvent now e s in
  onEvent now e (fst once) = once.
Proof.
  destruct e as [p|modelId|modelId|modelId|modelId msg|modelId| | ];
    cbn [onEvent fst]; f_equal.
  - apply ModelsStore_eq; try reflexivity; cbn.
    + apply insert_insert_eq.
    + apply updateStats_idemp.
  - apply forgetDownload_idemp.
  - apply ModelsStore_eq; try reflexivity; cbn.
    unfold assignTrue. case_bool_decide; [done|].
    by rewrite (assoc_L (∪)), (idemp_L (∪)).
  - apply ModelsStore_eq; try reflexivity; cbn. apply difference_twice_L.
  - apply ModelsStore_eq; try reflexivity; cbn. apply difference_twice_L.
  - apply forgetDownload_idemp.
Qed.

(** X8.  [selectModel]: on success the id becomes the current model,
    [isFirstRun] is cleared and [hasAnyModels] set; on a rejection or a
    throw the current model is the one before the call and the error
    field holds "Failed to switch to model: ...".  Downloads and
    extractions are not touched either way. *)
Theorem selectModel_outcomes (modelId : string) (r : Reply unit) (s : ModelsStore) :
  let s' := fst (selectModel modelId r s) in
  match failure r with
  | None =>
      snd (selectModel modelId r s) = true ∧ currentModel s' = modelId
      ∧ isFirstRun s' = false ∧ hasAnyModels s' = true ∧ error s' = None
  | Some e =>
      snd (selectModel modelId r s) = false ∧ sameButError s s'
      ∧ error s' = Some ("Failed to switch to model: " +:+ e)
  end
  ∧ downloadingModels s' = downloadingModels s
  ∧ downloadProgress s' = downloadProgress s
  ∧ downloadStats s' = downloadStats s
  ∧ extractingModels s' = extractingModels s
  ∧ models s' = models s.
Proof. destruct r as [[[]|e]|e]; by repeat split. Qed.

(** X9.  [deleteModel] returns [true] exactly when the backend accepts
    the command, and then ends as [loadModels] followed by
    [loadCurrentModel] end; on a rejection or a throw only the error
    field changes, to "Failed to delete model: ...".  No reply makes it
    write [downloadProgress], [downloadStats], [extractingModels],
    [hasAnyModels] or [isFirstRun]. *)
Theorem deleteModel_outcomes (modelId : string) (r : Reply unit)
    (rl : Reply (list ModelInfo)) (rc : Reply string) (s : ModelsStore) :
  let s' := fst (deleteModel modelId r rl rc s) in
  match failure r with
  | None =>
      snd (deleteModel modelId r rl rc s) = true
      ∧ s' = loadCurrentModel rc (loadModels rl (clearError s))
  | Some e =>
      snd (deleteModel modelId r rl rc s) = false ∧ sameButError s s'
      ∧ error s' = Some ("Failed to delete model: " +:+ e)
  end
  ∧ downloadProgress s' = downloadProgress s
  ∧ downloadStats s' = downloadStats s
  ∧ extractingModels s' = extractingModels s
  ∧ hasAnyModels s' = hasAnyModels s
  ∧ isFirstRun s' = isFirstRun s.
Proof.
  destruct r as [[[]|e]|e]; [|by repeat split..].
  destruct rl as [[data|e]|e], rc as [[c|e']|e']; by repeat split.
Qed.

(** X10.  Only the three extraction listeners write [extractingModels]:
    every other part of a run, whatever the replies, leaves it as it
    was. *)
Theorem extractingModels_frame (g : Segment) (s : ModelsStore) :
  match g with SegEvent _ e => isExtractionEvent e | _ => false end = false →
  extractingModels (runSegment g s) = extractingModels s.
Proof.
  destruct g as [now e|tr|r| |modelId r|modelId|modelId r|modelId r|r|v|v|v|v| ];
    cbn [runSegment]; intros Hne; try reflexivity.
  - destruct e; try discriminate Hne; reflexivity.
  - destruct tr as [[[data|e]|e]|[[data|e]|e]]; reflexivity.
  - destruct r as [[b|e]|e]; reflexivity.
  - destruct r as [[[]|e]|e]; reflexivity.
  - destruct r as [[[]|e]|e]; reflexivity.
  - destruct r as [[[]|e]|e]; reflexivity.
  - destruct r as [[[]|e]|e]; reflexivity.
Qed.

Lemma extractingModels_frame_witness :
  extractingModels (runSegment (SegTask (LoadModelsReply (resolved (ok []))))
                      afterSample1)
  = extractingModels afterSample1.
Proof.
  exact (extractingModels_frame (SegTask (LoadModelsReply (resolved (ok []))))
           afterSample1 eq_refl).
Defined.

(** X11.  An extraction from start to end: after
    [model-extraction-started] the id counts as extracting; after
    [model-extraction-completed] or [model-extraction-failed] it no
    longer does, unless it names a member of [Object.prototype], for
    which [in] answers true whatever the record holds; no other id
    changes.  Completion starts one [loadModels]; failure starts none
    and puts "Failed to extract model: ..." in the error field. *)
Theorem extraction_cycle (now now' : Q) (modelId k msg : string) (s : ModelsStore) :
  let started := fst (onEvent now (ModelExtractionStarted modelId) s) in
  let completed := onEvent now' (ModelExtractionCompleted modelId) started in
  let failed := onEvent now' (ModelExtractionFailed modelId msg) started in
  isModelExtracting modelId started = true
  ∧ isModelExtracting modelId (fst completed) = inherited modelId
  ∧ isModelExtracting modelId (fst failed) = inherited modelId
  ∧ snd completed = [LoadModels] ∧ snd failed = []
  ∧ error (fst completed) = error s
  ∧ error (fst failed) = Some ("Failed to extract model: " +:+ msg)
  ∧ (k ≠ modelId →
     isModelExtracting k started = isModelExtracting k s
     ∧ isModelExtracting k (fst completed) = isModelExtracting k s
     ∧ isModelExtracting k (fst failed) = isModelExtracting k s).
Proof.
  cbv zeta. unfold isModelExtracting, truthyAt. cbn. split.
  { destruct (decide (modelId = "__proto__")) as [->|Hne];
      [by rewrite inherited_proto, orb_true_r|].
    rewrite bool_decide_eq_true_2; [done|]. apply elem_of_assignTrue. by left. }
  do 2 (split; [rewrite bool_decide_eq_false_2; [done|membership]|]).
  do 4 (split; [done|]).
  intros Hk. repeat split; f_equal; apply bool_decide_ext;
    rewrite ?elem_of_difference, ?elem_of_assignTrue, ?elem_of_singleton; tauto.
Qed.

(** X12.  A download that has ended is not brought back by a refresh on
    its own: after [model-download-complete] for an id, a successful
    [loadModels] has the id in [downloadingModels] exactly when the
    snapshot marks it as downloading and the id is not "__proto__".
    More generally, whoever is a member after a successful refresh and
    has no progress entry is marked by the snapshot or bears the name of
    a member of [Object.prototype]. *)
Theorem refresh_after_complete (now : Q) (data : list ModelInfo) (k : string)
    (s : ModelsStore) :
  let ended := fst (onEvent now (ModelDownloadComplete k) s) in
  (k ∈ downloadingModels (loadModels (resolved (ok data)) ended)
   ↔ marksDownloading data k ∧ k ≠ "__proto__")
  ∧ (∀ j, j ∈ downloadingModels (loadModels (resolved (ok data)) s) →
          downloadProgress s !! j = None →
          marksDownloading data j ∨ inherited j = true).
Proof.
  cbv zeta. split.
  - rewrite downloadingModels_loadModels_ok. cbn [onEvent fst].
    cbn [forgetDownload set_downloadStats set_downloadProgress
         set_downloadingModels downloadProgress downloadingModels].
    split; [|tauto].
    intros [Hm|[Hin _]]; [done|].
    apply elem_of_difference in Hin as [_ Hin].
    exfalso. apply Hin. by apply elem_of_singleton.
  - intros j Hj Hnone. apply downloadingModels_loadModels_ok in Hj.
    destruct Hj as [[Hm _]|[_ [Hi|[p Hp]]]]; [by left|by right|].
    rewrite Hnone in Hp. discriminate Hp.
Qed.

(** X13.  [getModelInfo] returns the first model of the list with the
    id asked for, and nothing exactly when no model has that id; after a
    successful [loadModels] the list searched is the snapshot. *)
Theorem getModelInfo_first_match (modelId : string) (s : ModelsStore) :
  match getModelInfo modelId s with
  | Some m =>
      id m = modelId
      ∧ ∃ before after, models s = before ++ m :: after
                        ∧ ∀ x, x ∈ before → id x ≠ modelId
  | None => ∀ x, x ∈ models s → id x ≠ modelId
  end
  ∧ ∀ data, getModelInfo modelId (loadModels (resolved (ok data)) s)
            = getModelInfo modelId (set_models data s).
Proof.
  split; [|reflexivity].
  unfold getModelInfo. induction (models s) as [|a l IH]; cbn [find].
  - intros x Hx. by apply elem_of_nil in Hx.
  - destruct (bool_decide (id a = modelId)) eqn:Ha.
    + apply bool_decide_eq_true in Ha. split; [done|].
      exists [], l. split; [done|]. intros x Hx. by apply elem_of_nil in Hx.
    + apply bool_decide_eq_false in Ha.
      destruct (find (λ model, bool_decide (id model = modelId)) l) as [m|].
      * destruct IH as (Hm & before & after & -> & Hb). split; [done|].
        exists (a :: before), after. split; [done|].
        intros x [->|Hx]%elem_of_cons; [done|by apply Hb].
      * intros x [->|Hx]%elem_of_cons; [done|by apply IH].
Qed.

(** ** initialize *)

(** X14.  The three loads that [initialize] awaits together write
    disjoint parts of the store: their continuations commute pairwise,
    so the store after them does not depend on the order in which the
    backend answers. *)
Theorem initial_loads_commute (rl : Reply (list ModelInfo)) (rc : Reply string)
    (rf : Reply bool) (s : ModelsStore) :
  loadModels rl (loadCurrentModel rc s) = loadCurrentModel rc (loadModels rl s)
  ∧ loadModels rl (fst (checkFirstRun rf s)) = fst (checkFirstRun rf (loadModels rl s))
  ∧ loadCurrentModel rc (fst (checkFirstRun rf s))
    = fst (checkFirstRun rf (loadCurrentModel rc s))
  ∧ initialLoads rl rc rf s
    = loadModels rl (loadCurrentModel rc (fst (checkFirstRun rf s))).
Proof.
  destruct rl as [[data|e]|e], rc as [[c|e']|e'], rf as [[b|e'']|e''];
    repeat split.
Qed.

(** X15.  [initialize] on a store that is already initialized changes
    nothing and registers nothing.  Otherwise it registers the listeners
    once and leaves [initialized] set and [loading] cleared, so that a
    further call, whatever the backend would answer, is without
    effect. *)
Theorem initialize_once (rl rl' : Reply (list ModelInfo)) (rc rc' : Reply string)
    (rf rf' : Reply bool) (a : App) :
  let a' := initialize rl rc rf a in
  (if initialized (store a) then a' = a
   else listenerSets a' = S (listenerSets a)
        ∧ initialized (store a') = true
        ∧ loading (store a') = false)
  ∧ initialize rl' rc' rf' a' = a'.
Proof.
  cbv zeta. unfold initialize.
  destruct (initialized (store a)) eqn:Hi.
  - by rewrite Hi.
  - cbn [registerListeners store set_initialized initialized listenerSets].
    split; [|reflexivity]. split; [reflexivity|]. split; [reflexivity|].
    destruct rl as [[data|e]|e], rc as [[c|e']|e'], rf as [[b|e'']|e''];
      reflexivity.
Qed.

(** X23.  In every reachable state the first-run flag is only set while
    no model is known: [isFirstRun] implies that [hasAnyModels] is
    false.  ([checkFirstRun] writes them as each other's negation, and
    [selectModel] clears the one and sets the other.) *)
Theorem first_run_without_models (s : ModelsStore) :
  reachable s → isFirstRun s = true → hasAnyModels s = false.
Proof.
  induction 1 as [|g s Hs IH]; [done|].
  destruct g as [now e|tr|r| |modelId r|modelId|modelId r|modelId r|r|v|v|v|v| ];
    cbn [runSegment]; try exact IH.
  - destruct e; exact IH.
  - destruct tr as [[[data|e]|e]|[[data|e]|e]]; exact IH.
  - destruct r as [[[]|e]|e]; [by intros [=]|by intros _|exact IH..].
  - destruct r as [[[]|e]|e]; [by intros [=]|exact IH..].
  - destruct r as [[[]|e]|e]; exact IH.
  - destruct r as [[[]|e]|e]; exact IH.
  - destruct r as [[[]|e]|e]; exact IH.
Qed.

Lemma first_run_without_models_witness :
  hasAnyModels (fst (checkFirstRun (resolved (ok false)) initialStore)) = false.
Proof.
  refine (first_run_without_models
            (fst (checkFirstRun (resolved (ok false)) initialStore)) _ eq_refl).
  apply (reachable_segment (SegCheckFirstRun (resolved (ok false)))).
  apply reachable_initial.
Defined.

(** * Properties of the translation check *)

Import CheckTranslations.

(** ** Induction over nested objects *)


Lemma Json_nested_ind (P : Json → Prop) :
  P JNull → (∀ b, P (JBool b)) → (∀ n, P (JNumber n)) → (∀ s, P (JString s)) →
  (∀ items, Forall P items → P (JArray items)) →
  (∀ fields, Forall (λ kv, P kv.2) fields → P (JObject fields)) →
  ∀ value, P value.
Proof.
  intros Hnull Hbool Hnum Hstr Harr Hobj.
  fix IH 1. intros [ |b|n|s|items|fields]; [done..| |].
  - apply Harr. induction items as [|x items IHitems]; constructor; [apply IH|done].
  - apply Hobj. induction fields as [|[k x] fields IHfields]; constructor;
      [apply IH|done].
Qed.

Lemma getAllKeyPaths_cons (key : string) (value : Json) (rest : TranslationData)
    (prefix : list string) :
  getAllKeyPaths ((key, value) :: rest) prefix
  = match value with
    | JObject fields => getAllKeyPaths fields (prefix ++ [key])
    | _ => [prefix ++ [key]]
    end ++ getAllKeyPaths rest prefix.
Proof. by destruct value. Qed.

Lemma TranslationData_ind (P : TranslationData → Prop) :
  P [] →
  (∀ key value rest,
     (∀ fields, value = JObject fields → P fields) → P rest →
     P ((key, value) :: rest)) →
  ∀ obj, P obj.
Proof.
  intros Hnil Hcons obj.
  assert (∀ value, ∀ fields, value = JObject fields → P fields) as H.
  { induction value as [ |b|n|s|items _|fields IH] using Json_nested_ind;
      intros obj' [=]. subst obj'.
    induction IH as [|[key value] rest Hvalue _ IHrest]; [done|].
    apply Hcons; [|done]. exact Hvalue. }
  by apply (H (JObject obj)).
Qed.

Lemma getAllKeyPaths_prefix_eq (obj : TranslationData) (prefix : list string) :
  getAllKeyPaths obj prefix = (prefix ++.) <$> getAllKeyPaths obj [].
Proof.
  revert prefix. induction obj as [|key value rest IHvalue IHrest]
    using TranslationData_ind; intros prefix; [done|].
  rewrite !getAllKeyPaths_cons, fmap_app, <- IHrest. f_equal.
  destruct value as [ |b|n|s|items|fields]; try done.
  rewrite (IHvalue fields eq_refl (prefix ++ [key])),
          (IHvalue fields eq_refl ([] ++ [key])).
  rewrite <- list_fmap_compose. apply list_fmap_ext. intros _ q _. simpl.
  by rewrite <- app_assoc.
Qed.

(** ** Key paths and the values they lead to *)

Lemma ownProperty_head (key : string) (value : Json) (rest : TranslationData) :
  ownProperty (JObject ((key, value) :: rest)) key = Some value.
Proof. cbn. by rewrite bool_decide_eq_true_2. Qed.

Lemma ownProperty_tail (key k : string) (value : Json) (rest : TranslationData) :
  k ≠ key →
  ownProperty (JObject ((key, value) :: rest)) k = ownProperty (JObject rest) k.
Proof. intros Hne. cbn. by rewrite bool_decide_eq_false_2. Qed.

(** An own property is what [current[key]] finds first. *)
Lemma getProperty_own (current : Json) (key : string) (v : Json) :
  ownProperty current key = Some v →
  isObject (Parsed current) = true
  ∧ getProperty (Parsed current) key = Some (Parsed v).
Proof.
  destruct current as [ |b|n|s|items|fields]; try done; intros Hown;
    (split; [done|]); cbn [getProperty]; by rewrite Hown.
Qed.

(** Without an own property, a plain object answers only for the names
    of [Object.prototype]. *)
Lemma getProperty_object_not_inherited (fields : TranslationData) (key : string) :
  inherited key = false →
  getProperty (Parsed (JObject fields)) key
  = Parsed <$> ownProperty (JObject fields) key.
Proof.
  intros Hkey. cbn [getProperty].
  destruct (ownProperty (JObject fields) key) as [v|]; [done|].
  unfold fromObjectPrototype. rewrite Hkey.
  rewrite bool_decide_eq_false_2; [done|]. intros ->. by rewrite inherited_proto in Hkey.
Qed.

Lemma valueAt_tail (key k : string) (value : Json) (rest : TranslationData)
    (q : list string) :
  k ≠ key →
  valueAt (JObject ((key, value) :: rest)) (k :: q) = valueAt (JObject rest) (k :: q).
Proof.
  intros Hne. cbn [valueAt]. by rewrite ownProperty_tail.
Qed.

Lemma valueAt_head (key : string) (value : Json) (rest : TranslationData)
    (q : list string) :
  valueAt (JObject ((key, value) :: rest)) (key :: q) = valueAt value q.
Proof. cbn [valueAt]. by rewrite ownProperty_head. Qed.

(** A path that leads to a value through own properties is found. *)
Lemma hasKeyPathFrom_valueAt (current : Json) (p : list string) :
  is_Some (valueAt current p) → hasKeyPathFrom (Parsed current) p = true.
Proof.
  revert current. induction p as [|key p IH]; intros current; [done|].
  cbn [valueAt hasKeyPathFrom].
  destruct (ownProperty current key) as [next|] eqn:Hown; [|by intros [? [=]]].
  destruct (getProperty_own current key next Hown) as [-> ->]. apply IH.
Qed.

Lemma valueAt_app (current : Json) (p q : list string) :
  valueAt current (p ++ q) = valueAt current p ≫= λ v, valueAt v q.
Proof.
  revert current. induction p as [|key p IH]; intros current; [done|].
  cbn [app valueAt].
  destruct (ownProperty current key) as [next|]; [apply IH|done].
Qed.

Lemma hasKeyPathFrom_app (current : Value) (p q : list string) :
  hasKeyPathFrom current (p ++ q) = true → hasKeyPathFrom current p = true.
Proof.
  revert current. induction p as [|key p IH]; intros current; [done|].
  cbn [app hasKeyPathFrom]. destruct (negb (isObject current)); [done|].
  destruct (getProperty current key) as [next|]; [apply IH|done].
Qed.

(** A path listed by [getAllKeyPaths] leads to a value that is not a
    plain object. *)
Lemma getAllKeyPaths_leaf (obj : TranslationData) (prefix p : list string) :
  uniqueKeys (JObject obj) = true →
  p ∈ getAllKeyPaths obj prefix →
  ∃ k q v, p = prefix ++ k :: q ∧ k ∈ obj.*1
           ∧ valueAt (JObject obj) (k :: q) = Some v ∧ isPlainObject v = false.
Proof.
  revert prefix p. induction obj as [|key value rest IHvalue IHrest]
    using TranslationData_ind; intros prefix p Hu Hp.
  { by apply elem_of_nil in Hp. }
  cbn [uniqueKeys forallb fmap list_fmap fst snd] in Hu.
  apply andb_true_iff in Hu as [Hnd Hu]. apply bool_decide_eq_true in Hnd.
  apply NoDup_cons in Hnd as [Hfresh Hnd].
  apply andb_true_iff in Hu as [Huv Hur].
  rewrite getAllKeyPaths_cons in Hp. apply elem_of_app in Hp as [Hp|Hp].
  - destruct value as [ |b|n|s|items|fields];
      try (apply list_elem_of_singleton in Hp as ->; eexists key, [], _;
           split; [done|]; split; [by left|]; rewrite valueAt_head; done).
    destruct (IHvalue fields eq_refl (prefix ++ [key]) p Huv Hp)
      as (k & q & v & -> & Hk & Hq & Hv).
    exists key, (k :: q), v. split; [by rewrite <- app_assoc|]. split; [by left|].
    by rewrite valueAt_head.
  - destruct (IHrest prefix p) as (k & q & v & -> & Hk & Hq & Hv); [|done|].
    { cbn [uniqueKeys]. apply andb_true_iff. split; [by apply bool_decide_eq_true|done]. }
    exists k, q, v. split; [done|]. split; [by right|].
    rewrite valueAt_tail; [done|]. intros ->. by apply Hfresh.
Qed.

Lemma listed_path_present (obj : TranslationData) (p : list string) :
  uniqueKeys (JObject obj) = true →
  p ∈ getAllKeyPaths obj [] →
  hasKeyPath obj p = true.
Proof.
  intros Hu Hp.
  destruct (getAllKeyPaths_leaf obj [] p Hu Hp) as (k & q & v & -> & _ & Hv & _).
  apply (hasKeyPathFrom_valueAt (JObject obj)). by exists v.
Qed.

(** ** The result for one language *)

Lemma filter_nil_iff {A} (P : A → Prop) `{!∀ x, Decision (P x)} (l : list A) :
  filter P l = [] ↔ ∀ x, x ∈ l → ¬ P x.
Proof.
  split.
  - intros Hnil x Hx HP. by apply (filter_nil_not_elem_of P l x).
  - intros Hall. induction l as [|a l IH]; [done|].
    rewrite filter_cons. destruct (decide (P a)) as [Ha|Ha].
    + exfalso. apply (Hall a); [by left|done].
    + apply IH. intros x Hx. apply Hall. by right.
Qed.

Lemma filter_all {A} (P : A → Prop) `{!∀ x, Decision (P x)} (l : list A) :
  (∀ x, x ∈ l → P x) → filter P l = l.
Proof.
  intros Hall. induction l as [|a l IH]; [done|].
  rewrite filter_cons, decide_True by (apply Hall; by left).
  f_equal. apply IH. intros x Hx. apply Hall. by right.
Qed.

Lemma forallb_false {A} (f : A → bool) (l : list A) :
  forallb f l = false → ∃ x, x ∈ l ∧ f x = false.
Proof.
  induction l as [|a l IH]; [done|]. cbn [forallb].
  destruct (f a) eqn:Ha; cbn [andb].
  - intros (x & Hx & Hf)%IH. exists x. split; [by right|done].
  - intros _. exists a. split; [by left|done].
Qed.

Lemma valid_iff (referenceData langData : TranslationData) :
  valid (languageResult referenceData (getAllKeyPaths referenceData []) langData) = true
  ↔ (∀ p, p ∈ getAllKeyPaths referenceData [] → hasKeyPath langData p = true)
    ∧ (∀ q, q ∈ getAllKeyPaths langData [] → hasKeyPath referenceData q = true).
Proof.
  unfold languageResult. cbn [valid].
  rewrite andb_true_iff, !bool_decide_eq_true, !length_zero_iff_nil, !filter_nil_iff.
  split; intros [H1 H2]; split; intros p Hp.
  - specialize (H1 p Hp). by destruct (hasKeyPath langData p).
  - specialize (H2 p Hp). by destruct (hasKeyPath referenceData p).
  - by rewrite (H1 p Hp).
  - by rewrite (H2 p Hp).
Qed.

Lemma checkLanguage_hasErrors load referenceData (t : Tracking) (lang : string) :
  hasErrors (checkLanguage load referenceData (getAllKeyPaths referenceData []) t lang)
  = hasErrors t
    || negb (match load lang with
             | Some langData =>
                 valid (languageResult referenceData
                          (getAllKeyPaths referenceData []) langData)
             | None => false
             end).
Proof.
  unfold checkLanguage. destruct (load lang) as [langData|]; cbn [hasErrors].
  - unfold languageResult. cbn [valid missing extra].
    set (m := filter _ (getAllKeyPaths referenceData [])).
    set (x := filter _ (getAllKeyPaths langData [])).
    destruct m, x; cbn [length]; rewrite ?bool_decide_eq_true_2 by lia;
      rewrite ?bool_decide_eq_false_2 by lia; cbn; try done;
      by destruct (hasErrors t).
  - by destruct (hasErrors t).
Qed.

Lemma assignResult_lookup (l lang : string) (r : ValidationResult)
    (m : gmap string ValidationResult) :
  assignResult l r m !! lang
  = if decide (lang = l ∧ lang ≠ "__proto__") then Some r else m !! lang.
Proof.
  unfold assignResult. destruct (decide (l = "__proto__")) as [->|Hl].
  - rewrite bool_decide_eq_true_2 by done.
    by rewrite decide_False by (by intros [? ?]).
  - rewrite bool_decide_eq_false_2 by done.
    destruct (decide (lang = l)) as [->|Hne].
    + by rewrite decide_True, lookup_insert_eq.
    + by rewrite decide_False, lookup_insert_ne by (by intros [? ?] || done).
Qed.

Lemma checkLanguage_results load referenceData (t : Tracking) (lang : string) :
  results (checkLanguage load referenceData (getAllKeyPaths referenceData []) t lang)
  = assignResult lang (resultFor load referenceData lang) (results t).
Proof. unfold checkLanguage, resultFor. by destruct (load lang). Qed.

Lemma foldl_checkLanguage (load : string → option TranslationData)
    (referenceData : TranslationData) (LANGUAGES : list string) (t : Tracking) :
  let step := checkLanguage load referenceData (getAllKeyPaths referenceData []) in
  let t' := foldl step t LANGUAGES in
  hasErrors t' = hasErrors t || negb (forallb (languagePasses load referenceData) LANGUAGES)
  ∧ ∀ lang, results t' !! lang
            = if decide (lang ∈ LANGUAGES ∧ lang ≠ "__proto__")
              then Some (resultFor load referenceData lang)
              else results t !! lang.
Proof.
  intros step. revert t. induction LANGUAGES as [|l LANGUAGES IH]; intros t.
  - cbn. split; [by rewrite orb_false_r|]. intros lang.
    rewrite decide_False; [done|]. intros [Hin _]. by apply elem_of_nil in Hin.
  - cbn [foldl forallb]. destruct (IH (step t l)) as [IHe IHr].
    cbv zeta in *. split.
    + rewrite IHe. subst step. rewrite checkLanguage_hasErrors.
      unfold languagePasses.
      destruct (hasErrors t), (match load l with Some _ => _ | None => _ end),
        (forallb _ LANGUAGES); done.
    + intros lang. rewrite IHr. subst step.
      rewrite checkLanguage_results, assignResult_lookup.
      destruct (decide (lang ∈ LANGUAGES ∧ lang ≠ "__proto__")) as [[Hin Hp]|Hnin].
      * rewrite decide_True; [done|]. split; [by right|done].
      * destruct (decide (lang = l ∧ lang ≠ "__proto__")) as [[-> Hp]|Hne].
        -- rewrite decide_True; [done|]. split; [by left|done].
        -- rewrite decide_False; [done|]. intros [[->|Hin]%elem_of_cons Hp].
           ++ by apply Hne.
           ++ by apply Hnin.
Qed.

Lemma map_size_le_length {V} (L : list string) (m : gmap string V) :
  (∀ k, is_Some (m !! k) → k ∈ L) → size m ≤ length L.
Proof.
  revert m. induction L as [|a L IH]; intros m Hdom.
  - assert (m = ∅) as ->; [|by rewrite map_size_empty].
    apply map_empty. intros k. destruct (m !! k) eqn:Hk; [|done].
    exfalso. apply (not_elem_of_nil k). apply Hdom. by eexists.
  - specialize (IH (delete a m)). cbn [length].
    rewrite map_size_delete in IH.
    assert (∀ k, is_Some (delete a m !! k) → k ∈ L) as Hd.
    { intros k [Hne Hk]%lookup_delete_is_Some.
      apply Hdom in Hk. apply elem_of_cons in Hk as [->|Hk]; done. }
    specialize (IH Hd). destruct (m !! a); simpl in IH; lia.
Qed.

Lemma map_size_eq_length {V} (L : list string) (m : gmap string V) :
  NoDup L → (∀ k, is_Some (m !! k) ↔ k ∈ L) → size m = length L.
Proof.
  revert m. induction L as [|a L IH]; intros m Hnd Hdom.
  - assert (m = ∅) as ->; [|by rewrite map_size_empty].
    apply map_empty. intros k. destruct (m !! k) eqn:Hk; [|done].
    exfalso. apply (not_elem_of_nil k). apply Hdom. by eexists.
  - apply NoDup_cons in Hnd as [Ha Hnd].
    specialize (IH (delete a m) Hnd). cbn [length].
    rewrite map_size_delete in IH.
    assert (is_Some (m !! a)) as [v Hv] by (apply Hdom; by left).
    rewrite Hv in IH. simpl in IH.
    assert (size m ≠ 0).
    { intros H0. apply map_size_empty_inv in H0. subst m. by rewrite lookup_empty in Hv. }
    rewrite <- IH; [lia|].
    intros k. rewrite lookup_delete_is_Some, Hdom, elem_of_cons. split.
    + intros [Hne [->|Hk]]; done.
    + intros Hk. split; [by intros ->|by right].
Qed.

(** ** Plain translation trees *)

(** A plain value that is not an object has no property of its own. *)
Lemma plainTree_leaf_no_property (value : Json) (key : string) :
  plainTree value = true → isPlainObject value = false →
  ownProperty value key = None.
Proof. by destruct value. Qed.

Lemma plainTree_ownProperty (fields : TranslationData) (key : string) (v : Json) :
  forallb (λ kv, plainTree kv.2) fields = true →
  ownProperty (JObject fields) key = Some v → plainTree v = true.
Proof.
  induction fields as [|[k x] rest IH]; [done|]. cbn [forallb snd].
  intros [Hx Hrest]%andb_true_iff.
  destruct (decide (k = key)) as [->|Hne].
  - rewrite ownProperty_head. by intros [= <-].
  - rewrite ownProperty_tail by done. by apply IH.
Qed.

(** In plain values, a path none of whose keys is the name of a member
    of [Object.prototype] is found only through own properties. *)
Lemma hasKeyPathFrom_own (fields : TranslationData) (p : list string) :
  forallb (λ kv, plainTree kv.2) fields = true →
  Forall (λ k, inherited k = false) p →
  hasKeyPathFrom (Parsed (JObject fields)) p = true →
  is_Some (valueAt (JObject fields) p).
Proof.
  revert fields. induction p as [|key p IH]; intros fields Hplain Hp;
    [by eexists|].
  apply Forall_cons in Hp as [Hkey Hp].
  cbn [hasKeyPathFrom valueAt isObject negb].
  rewrite getProperty_object_not_inherited by done.
  destruct (ownProperty (JObject fields) key) as [v|] eqn:Hown; [|done].
  pose proof (plainTree_ownProperty _ _ _ Hplain Hown) as Hv.
  cbn [fmap option_fmap option_map].
  destruct v as [ |b|n|s|items|fields']; try (destruct p; [by eexists|done]).
  apply IH; [|done]. cbn [plainTree] in Hv.
  by apply andb_true_iff in Hv as [_ Hv].
Qed.

Lemma hasKeyPath_own (obj : TranslationData) (p : list string) :
  plainData obj = true →
  Forall (λ k, inherited k = false) p →
  hasKeyPath obj p = true →
  is_Some (valueAt (JObject obj) p).
Proof.
  unfold plainData. intros [_ Hplain]%andb_true_iff. by apply hasKeyPathFrom_own.
Qed.

(** The keys of a listed path are keys of the file. *)
Lemma listed_path_ownNames (obj : TranslationData) (prefix p : list string) :
  ownNamesOnly (JObject obj) = true →
  p ∈ getAllKeyPaths obj prefix →
  ∃ q, p = prefix ++ q ∧ Forall (λ k, inherited k = false) q.
Proof.
  revert prefix p. induction obj as [|key value rest IHvalue IHrest]
    using TranslationData_ind; intros prefix p Hown Hp.
  { by apply elem_of_nil in Hp. }
  cbn [ownNamesOnly forallb fst snd] in Hown.
  apply andb_true_iff in Hown as [[Hkey Hvalue]%andb_true_iff Hrest].
  apply negb_true_iff in Hkey.
  rewrite getAllKeyPaths_cons in Hp. apply elem_of_app in Hp as [Hp|Hp].
  - destruct value as [ |b|n|s|items|fields];
      try (apply list_elem_of_singleton in Hp as ->; exists [key];
           split; [done|]; by repeat constructor).
    destruct (IHvalue fields eq_refl (prefix ++ [key]) p Hvalue Hp)
      as (q & -> & Hq).
    exists (key :: q). split; [by rewrite <- app_assoc|]. by constructor.
  - by apply IHrest.
Qed.

Lemma plainData_cons (key : string) (value : Json) (rest : TranslationData) :
  plainData ((key, value) :: rest) = true
  ↔ (key ∉ rest.*1) ∧ plainTree value = true ∧ plainData rest = true.
Proof.
  unfold plainData. cbn [fmap list_fmap fst snd forallb].
  rewrite !andb_true_iff, !bool_decide_eq_true, NoDup_cons. tauto.
Qed.

Lemma plainTree_object (fields : TranslationData) :
  plainTree (JObject fields) = true ↔ fields ≠ [] ∧ plainData fields = true.
Proof.
  unfold plainData. cbn [plainTree]. rewrite !andb_true_iff.
  destruct fields; [split; [intros [[[=] _] _]|intros [[] _]]|]; [done|].
  split; [intros [[_ ?] ?]|intros [_ [? ?]]]; done.
Qed.

Lemma plainTree_uniqueKeys (value : Json) :
  plainTree value = true → uniqueKeys value = true.
Proof.
  induction value as [ |b|n|s|items _|fields IH] using Json_nested_ind; try done.
  cbn [plainTree uniqueKeys]. rewrite !andb_true_iff. intros [[_ Hnd] Hall].
  split; [done|]. clear Hnd. induction IH as [|[k x] rest Hx _ IHrest]; [done|].
  cbn [forallb snd] in *. apply andb_true_iff in Hall as [Hpx Hall].
  apply andb_true_iff. split; [by apply Hx|by apply IHrest].
Qed.

Lemma plainData_uniqueKeys (obj : TranslationData) :
  plainData obj = true → uniqueKeys (JObject obj) = true.
Proof.
  unfold plainData. cbn [uniqueKeys]. rewrite !andb_true_iff. intros [Hnd Hall].
  split; [done|]. clear Hnd. induction obj as [|[k x] rest IH]; [done|].
  cbn [forallb snd] in *. apply andb_true_iff in Hall as [Hpx Hall].
  apply andb_true_iff. split; [by apply plainTree_uniqueKeys|by apply IH].
Qed.

(** In plain data, a non-empty path to a value that is not an object is
    one of the listed paths, and every value met is plain. *)
Lemma plainData_valueAt (obj : TranslationData) (p : list string) (v : Json) :
  plainData obj = true → p ≠ [] →
  valueAt (JObject obj) p = Some v →
  plainTree v = true
  ∧ (isPlainObject v = false → p ∈ getAllKeyPaths obj []).
Proof.
  revert p v. induction obj as [|key value rest IHvalue IHrest]
    using TranslationData_ind; intros p v Hplain Hp Hv.
  { destruct p; [done|]. discriminate Hv. }
  apply plainData_cons in Hplain as (Hfresh & Hpv & Hpr).
  destruct p as [|k q]; [done|]. rewrite getAllKeyPaths_cons.
  destruct (decide (k = key)) as [->|Hne].
  - rewrite valueAt_head in Hv. destruct q as [|k' q'].
    + injection Hv as <-. split; [done|]. intros Hleaf.
      apply elem_of_app. left. destruct value; try done; by apply list_elem_of_singleton.
    + destruct value as [ |b|n|s|items|fields]; try discriminate Hv; [done|].
      apply plainTree_object in Hpv as [_ Hpf].
      destruct (IHvalue fields eq_refl (k' :: q') v Hpf) as [Hpt Hin]; [done..|].
      split; [done|]. intros Hleaf. apply elem_of_app. left.
      rewrite getAllKeyPaths_prefix_eq. apply list_elem_of_fmap.
      exists (k' :: q'). split; [done|by apply Hin].
  - rewrite valueAt_tail in Hv by done.
    destruct (IHrest (k :: q) v Hpr) as [Hpt Hin]; [done..|].
    split; [done|]. intros Hleaf. apply elem_of_app. right. by apply Hin.
Qed.

(** Below every plain value there is a value that is not an object. *)
Lemma plainTree_has_leaf (value : Json) :
  plainTree value = true →
  ∃ r leaf, valueAt value r = Some leaf ∧ isPlainObject leaf = false.
Proof.
  induction value as [ |b|n|s|items _|fields IH] using Json_nested_ind;
    try (by intros _; eexists [], _).
  intros [Hne Hplain]%plainTree_object.
  destruct fields as [|[k x] rest]; [done|].
  apply plainData_cons in Hplain as (_ & Hpx & _).
  apply Forall_cons in IH as [IHx _].
  destruct (IHx Hpx) as (r & leaf & Hr & Hleaf).
  exists (k :: r), leaf. split; [by rewrite valueAt_head|done].
Qed.

Lemma valid_paths_included (referenceData langData : TranslationData)
    (p : list string) :
  plainData referenceData = true → plainData langData = true →
  ownNamesOnly (JObject referenceData) = true →
  ownNamesOnly (JObject langData) = true →
  (∀ q, q ∈ getAllKeyPaths langData [] → hasKeyPath referenceData q = true) →
  p ∈ getAllKeyPaths referenceData [] → hasKeyPath langData p = true →
  p ∈ getAllKeyPaths langData [].
Proof.
  intros Href Hlang Hrefnames Hlangnames Hextra Hp Hhas.
  destruct (listed_path_ownNames referenceData [] p Hrefnames Hp)
    as (p' & -> & Hpnames).
  destruct (getAllKeyPaths_leaf referenceData [] p' (plainData_uniqueKeys _ Href) Hp)
    as (k & q & leaf & -> & _ & Hleaf & Hnotobj).
  cbn [app] in *.
  apply hasKeyPath_own in Hhas as [v Hv]; [|done..].
  destruct (plainData_valueAt langData (k :: q) v Hlang) as [Hpv Hin]; [done..|].
  destruct (plainTree_has_leaf v Hpv) as (r & leaf' & Hr & Hleaf').
  assert (valueAt (JObject langData) ((k :: q) ++ r) = Some leaf') as Hdeep.
  { by rewrite valueAt_app, Hv. }
  destruct (plainData_valueAt langData ((k :: q) ++ r) leaf' Hlang) as [_ Hin'];
    [done..|].
  destruct (listed_path_ownNames langData [] _ Hlangnames (Hin' Hleaf'))
    as (deep & Hdeep' & Hdeepnames). cbn [app] in Hdeep'. subst deep.
  specialize (Hextra _ (Hin' Hleaf')).
  apply hasKeyPath_own in Hextra as [w Hw]; [|done..].
  rewrite valueAt_app, Hleaf in Hw. cbn in Hw.
  destruct (plainData_valueAt referenceData (k :: q) leaf Href) as [Hpl _]; [done..|].
  destruct r as [|k' r'].
  - cbn in Hr. injection Hr as <-. by apply Hin.
  - exfalso. cbn [valueAt] in Hw.
    rewrite (plainTree_leaf_no_property leaf k' Hpl Hnotobj) in Hw. discriminate Hw.
Qed.

(** ** What the check reports *)

(** A key of a language named like a member of [Object.prototype] is
    found in any reference and so is never extra: the language passes
    with a key path the reference does not list. *)
Lemma inherited_name_is_not_extra :
  getAllKeyPaths sampleRef [] = [["ok"]]
  ∧ getAllKeyPaths sampleInheritedName [] = [["ok"]; ["toString"]]
  ∧ hasKeyPath sampleRef ["toString"] = true
  ∧ valid (languageResult sampleRef (getAllKeyPaths sampleRef [])
             sampleInheritedName) = true
  ∧ exitCode (validateTranslations sampleLoadInherited ["xx"]) = 0.
Proof. repeat split; reflexivity. Qed.

(** A language named [__proto__] gets no entry of [results] and is not
    counted as valid, also when it passes. *)
Lemma language_named_proto_is_not_counted :
  let report := validateTranslations sampleLoadProto ["__proto__"] in
  exitCode report = 0
  ∧ summary report = Some (0, 1)
  ∧ languageResults report !! "__proto__" = None.
Proof. repeat split; reflexivity. Qed.

(** X16.  The prefix given to [getAllKeyPaths] is only put in front: the
    paths listed under a prefix are the paths listed under the empty
    prefix, each with the prefix before it, in the same order. *)
Theorem getAllKeyPaths_prefix (obj : TranslationData) (prefix : list string) :
  getAllKeyPaths obj prefix = (prefix ++.) <$> getAllKeyPaths obj [].
Proof. apply getAllKeyPaths_prefix_eq. Qed.

(** X17.  Every key path that [getAllKeyPaths] lists for an object is
    found in that object by [hasKeyPath], and leads to a value that is
    not a plain object (a string, a number, a boolean, null or an
    array). *)
Theorem own_key_paths_present (obj : TranslationData) (p : list string) :
  uniqueKeys (JObject obj) = true →
  p ∈ getAllKeyPaths obj [] →
  hasKeyPath obj p = true
  ∧ ∃ v, valueAt (JObject obj) p = Some v ∧ isPlainObject v = false.
Proof.
  intros Hu Hp. split; [by apply listed_path_present|].
  destruct (getAllKeyPaths_leaf obj [] p Hu Hp) as (k & q & v & -> & _ & Hv & Hl).
  by exists v.
Qed.

Lemma own_key_paths_present_witness :
  hasKeyPath sampleEn ["app"; "quit"] = true.
Proof.
  refine (proj1 (own_key_paths_present sampleEn ["app"; "quit"] eq_refl _)).
  vm_compute. right. left.
Defined.

(** X18.  [hasKeyPath] is closed under prefixes: when a key path is
    found, so is every path it starts with; the empty path is always
    found. *)
Theorem hasKeyPath_prefix_closed (obj : TranslationData) (p q : list string) :
  hasKeyPath obj (p ++ q) = true →
  hasKeyPath obj p = true ∧ hasKeyPath obj [] = true.
Proof.
  intros H. split; [|reflexivity]. by apply (hasKeyPathFrom_app _ p q).
Qed.

Lemma hasKeyPath_prefix_closed_witness : hasKeyPath sampleEn ["app"] = true.
Proof.
  exact (proj1 (hasKeyPath_prefix_closed sampleEn ["app"] ["title"] eq_refl)).
Defined.

(** X19.  A file checked against itself has no missing and no extra
    key: the reference language, were it listed, would pass. *)
Theorem self_check (referenceData : TranslationData) :
  uniqueKeys (JObject referenceData) = true →
  languageResult referenceData (getAllKeyPaths referenceData []) referenceData
  = {| valid := true; missing := []; extra := [] |}.
Proof.
  intros Hu. unfold languageResult.
  assert (filter (λ keyPath, hasKeyPath referenceData keyPath = false)
                 (getAllKeyPaths referenceData []) = []) as ->; [|done].
  apply filter_nil_iff. intros p Hp. by rewrite (listed_path_present _ _ Hu Hp).
Qed.

Lemma self_check_witness :
  languageResult sampleEn (getAllKeyPaths sampleEn []) sampleEn
  = {| valid := true; missing := []; extra := [] |}.
Proof. exact (self_check sampleEn eq_refl). Defined.

(** X20.  The script exits with 0 exactly when the reference file loads
    and, for every language of [LANGUAGES], the file loads, [hasKeyPath]
    finds in it every key path listed for the reference, and finds in
    the reference every key path listed for it; in every other case it
    exits with 1.  What [hasKeyPath] finds includes names reached
    through the prototype chain. *)
Theorem exit_code (load : string → option TranslationData)
    (LANGUAGES : list string) :
  (exitCode (validateTranslations load LANGUAGES) = 0
   ↔ ∃ referenceData,
       load REFERENCE_LANG = Some referenceData
       ∧ ∀ lang, lang ∈ LANGUAGES →
           ∃ langData,
             load lang = Some langData
             ∧ (∀ p, p ∈ getAllKeyPaths referenceData [] →
                     hasKeyPath langData p = true)
             ∧ (∀ q, q ∈ getAllKeyPaths langData [] →
                     hasKeyPath referenceData q = true))
  ∧ (exitCode (validateTranslations load LANGUAGES) = 0
     ∨ exitCode (validateTranslations load LANGUAGES) = 1).
Proof.
  split.
  - unfold validateTranslations.
    destruct (load REFERENCE_LANG) as [referenceData|] eqn:Href; cbn [exitCode].
    + destruct (foldl_checkLanguage load referenceData LANGUAGES
                  {| hasErrors := false; results := ∅ |}) as [He _].
      cbv zeta in He. rewrite He. cbn [hasErrors orb].
      destruct (forallb (languagePasses load referenceData) LANGUAGES) eqn:Hall;
        cbn [negb].
      * split; [intros _|done]. exists referenceData. split; [done|].
        intros lang Hlang. rewrite forallb_forall in Hall.
        specialize (Hall lang (proj1 (list_elem_of_In _ _) Hlang)).
        unfold languagePasses in Hall. destruct (load lang) as [langData|]; [|done].
        exists langData. split; [done|]. by apply valid_iff.
      * split; [done|]. intros (ref & [= <-] & Hlangs). exfalso.
        apply not_true_iff_false in Hall. apply Hall. apply forallb_forall.
        intros lang Hlang%list_elem_of_In.
        destruct (Hlangs lang Hlang) as (langData & Hload & Hv).
        unfold languagePasses. rewrite Hload. by apply valid_iff.
    + split; [done|]. by intros (ref & [=] & _).
  - unfold validateTranslations. destruct (load REFERENCE_LANG); cbn [exitCode];
      [|by right].
    match goal with |- context [hasErrors ?t] => destruct (hasErrors t) end;
      [by right|by left].
Qed.

(** X21.  When the reference file loads, the report has an entry for
    every language of [LANGUAGES] but [__proto__], and for no other; a
    language that failed to load has an invalid entry with both lists
    empty.  The summary counts are consistent with the exit code:
    [validCount] never exceeds [totalCount]; it is below it when the
    script exits with 1 and when a language is named [__proto__]; it is
    equal to it when the script exits with 0, no language is listed
    twice and none is named [__proto__]. *)
Theorem report_counts (load : string → option TranslationData)
    (LANGUAGES : list string) (referenceData : TranslationData) :
  load REFERENCE_LANG = Some referenceData →
  let report := validateTranslations load LANGUAGES in
  (∀ lang, languageResults report !! lang
           = if decide (lang ∈ LANGUAGES ∧ lang ≠ "__proto__")
             then Some (resultFor load referenceData lang) else None)
  ∧ ∃ validCount,
      summary report = Some (validCount, length LANGUAGES)
      ∧ validCount ≤ length LANGUAGES
      ∧ (exitCode report = 1 → validCount < length LANGUAGES)
      ∧ ("__proto__" ∈ LANGUAGES → validCount < length LANGUAGES)
      ∧ (exitCode report = 0 → NoDup LANGUAGES → "__proto__" ∉ LANGUAGES →
         validCount = length LANGUAGES).
Proof.
  intros Href report. subst report. unfold validateTranslations. rewrite Href.
  destruct (foldl_checkLanguage load referenceData LANGUAGES
              {| hasErrors := false; results := ∅ |}) as [He Hr].
  cbv zeta in He, Hr. cbn [results hasErrors orb] in He, Hr.
  set (t := foldl _ _ LANGUAGES) in *.
  cbn [languageResults summary exitCode].
  assert (∀ lang, results t !! lang
                  = if decide (lang ∈ LANGUAGES ∧ lang ≠ "__proto__")
                    then Some (resultFor load referenceData lang) else None) as Hres.
  { intros lang. rewrite Hr.
    by destruct (decide (lang ∈ LANGUAGES ∧ lang ≠ "__proto__")). }
  split; [exact Hres|]. eexists. split; [reflexivity|].
  assert (size (results t) ≤ length (filter (.≠ "__proto__") LANGUAGES)) as Hstored.
  { apply map_size_le_length. intros k. rewrite Hres.
    destruct (decide (k ∈ LANGUAGES ∧ k ≠ "__proto__")) as [[Hk Hp]|];
      [|by intros [? [=]]].
    intros _. by apply list_elem_of_filter. }
  pose proof (length_filter (.≠ "__proto__") LANGUAGES) as Hsize.
  pose proof (length_filter (λ r, valid r = true) (snd <$> map_to_list (results t)))
    as Hle.
  rewrite length_fmap, length_map_to_list in Hle.
  assert ("__proto__" ∈ LANGUAGES →
          length (filter (.≠ "__proto__") LANGUAGES) < length LANGUAGES) as Hproto.
  { intros Hin. by apply (length_filter_lt _ _ "__proto__"); [|intros ?]. }
  split; [lia|]. split; [|split].
  - intros Hexit. destruct (hasErrors t) eqn:Ht; [|done].
    clear Ht. symmetry in He. apply negb_true_iff in He.
    apply forallb_false in He as (l & Hl & Hbad).
    destruct (decide (l = "__proto__")) as [->|Hne]; [specialize (Hproto Hl); lia|].
    assert (results t !! l = Some (resultFor load referenceData l)) as Hentry.
    { rewrite Hres. by rewrite decide_True. }
    assert (valid (resultFor load referenceData l) ≠ true) as Hinvalid.
    { unfold resultFor. unfold languagePasses in Hbad.
      destruct (load l); [by rewrite Hbad|done]. }
    eapply Nat.lt_le_trans; [|etrans; [exact Hstored|exact Hsize]].
    rewrite <- (length_map_to_list (results t)), <- (length_fmap snd).
    apply (length_filter_lt _ _ (resultFor load referenceData l)); [|done].
    apply list_elem_of_fmap. exists (l, resultFor load referenceData l).
    split; [done|]. by apply elem_of_map_to_list.
  - intros Hin. specialize (Hproto Hin). lia.
  - intros Hexit Hnd Hnoproto. destruct (hasErrors t) eqn:Ht; [done|].
    clear Ht. symmetry in He. apply negb_false_iff in He. rename He into Ht.
    rewrite forallb_forall in Ht.
    rewrite <- (map_size_eq_length LANGUAGES (results t) Hnd).
    + rewrite <- (length_map_to_list (results t)), <- (length_fmap snd).
      f_equal. apply filter_all. intros r [[l r'] [-> Hlr]]%list_elem_of_fmap.
      apply elem_of_map_to_list in Hlr. rewrite Hres in Hlr. cbn [snd].
      destruct (decide (l ∈ LANGUAGES ∧ l ≠ "__proto__")) as [[Hl _]|]; [|done].
      injection Hlr as <-. specialize (Ht l (proj1 (list_elem_of_In _ _) Hl)).
      unfold languagePasses in Ht. unfold resultFor. by destruct (load l).
    + intros k. rewrite Hres.
      destruct (decide (k ∈ LANGUAGES ∧ k ≠ "__proto__")) as [[Hk _]|Hk].
      * by split; eauto.
      * split; [by intros [? [=]]|]. intros Hin. exfalso. apply Hk.
        split; [done|]. by intros ->.
Qed.

Lemma report_counts_witness :
  let report := validateTranslations sampleLoad ["de"; "fr"; "it"] in
  exitCode report = 1
  ∧ summary report = Some (1, 3)
  ∧ languageResults report !! "fr"
    = Some {| valid := false; missing := [["app"; "quit"]; ["ok"]];
              extra := [["oui"]] |}
  ∧ languageResults report !! "it"
    = Some {| valid := false; missing := []; extra := [] |}.
Proof.
  destruct (report_counts sampleLoad ["de"; "fr"; "it"] sampleEn eq_refl)
    as (Hentries & validCount & Hsummary & _).
  cbv zeta. split; [reflexivity|]. split; [reflexivity|].
  split; [rewrite Hentries; reflexivity|rewrite Hentries; reflexivity].
Defined.

(** X22.  For files made of strings, numbers, booleans, nulls and
    non-empty objects, none of whose keys is the name of a member of
    [Object.prototype], a language passes exactly when it has the same
    key paths as the reference: nothing missing and nothing extra means
    the two lists of key paths have the same members. *)
Theorem valid_means_same_keys (referenceData langData : TranslationData) :
  plainData referenceData = true → plainData langData = true →
  ownNamesOnly (JObject referenceData) = true →
  ownNamesOnly (JObject langData) = true →
  valid (languageResult referenceData (getAllKeyPaths referenceData []) langData) = true
  ↔ ∀ p, p ∈ getAllKeyPaths referenceData [] ↔ p ∈ getAllKeyPaths langData [].
Proof.
  intros Href Hlang Hrefnames Hlangnames. rewrite valid_iff. split.
  - intros [Hmissing Hextra] p. split; intros Hp.
    + apply (valid_paths_included referenceData langData); auto.
    + apply (valid_paths_included langData referenceData); auto.
  - intros Hsame. split; intros p Hp.
    + apply listed_path_present; [by apply plainData_uniqueKeys|by apply Hsame].
    + apply listed_path_present; [by apply plainData_uniqueKeys|by apply Hsame].
Qed.

Lemma valid_means_same_keys_witness :
  valid (languageResult sampleEn (getAllKeyPaths sampleEn []) sampleDe) = true.
Proof.
  apply (proj2 (valid_means_same_keys sampleEn sampleDe
                  eq_refl eq_refl eq_refl eq_refl)).
  intros p.
  change (getAllKeyPaths sampleEn [])
    with [["app"; "title"]; ["app"; "quit"]; ["ok"]].
  change (getAllKeyPaths sampleDe [])
    with [["ok"]; ["app"; "quit"]; ["app"; "title"]].
  rewrite !elem_of_cons, !elem_of_nil. tauto.
Defined.
